(** * Rummy backend: meld validator, scoring, session engine, turn timer, ELO

    A shallow embedding of the JavaScript sources
      - [src/game/validator.js]   (module [Validator])
      - scoring.js and deck.js    (modules [Scoring], [Deck])
      - [src/game/gameManager.js] (module [GameManager])
      - the socket handlers: the turn-timer coordinator (module [Handlers])
        and the transitions they drive on a stored room (module [Session])
      - [src/game/elo.js]         (module [Elo])
    followed by the statements of the specification in its own words
    (module [DeclareRule], the predicates of [Session]), sample rooms
    (module [Samples]) and the properties.

    Conventions of the embedding.
      - A card token is a [string]; JS arrays are [list]s in array order, so
        [pop] takes the LAST element and [push] appends at the end.
      - A JS object used as a dictionary is a finite map over its own
        string keys ([gmap string _], or an association list where the
        insertion order is visible).  Keys that name members of
        [Object.prototype] are outside the embedding.
      - [Date.now()], [Math.random()] and the shuffle are inputs of the
        transitions that consult them.
      - JS numbers that hold integers are [Z] or [nat]; the rating formula
        is stated over the real numbers.
      - Two field names are changed because the source's are taken: the
        [isWild] field of a parsed card is [wildToken], and the [id] of a
        player is [sid]. *)

From Stdlib Require Import Reals Lra ZArith Ascii String.
From stdpp Require Import gmap strings list fin_maps pretty.

Local Open Scope string_scope.
Local Open Scope list_scope.

#[local] Set Warnings "-clear-no-such-hyp".

(** ** JavaScript string and array primitives used by the sources *)
Module Js.

Definition dash : ascii := "-"%char.

(** [s.includes(c)] for a one-character needle. *)
Fixpoint includes (c : ascii) (s : string) : bool :=
  match s with
  | EmptyString => false
  | String a s' => if Ascii.eqb a c then true else includes c s'
  end.

(** [s.split(sep)] for a one-character separator; [''.split('-')] is
    the one-element array holding the empty string. *)
Fixpoint split (sep : ascii) (s : string) : list string :=
  match s with
  | EmptyString => [EmptyString]
  | String a s' =>
      if Ascii.eqb a sep then EmptyString :: split sep s'
      else match split sep s' with
           | h :: t => String a h :: t
           | [] => [String a EmptyString]
           end
  end.

(** [arr.indexOf(x)], [-1] when absent. *)
Fixpoint indexOf_from (i : Z) (x : string) (l : list string) : Z :=
  match l with
  | [] => (-1)%Z
  | y :: l' => if String.eqb y x then i else indexOf_from (i + 1)%Z x l'
  end.

Definition indexOf (x : string) (l : list string) : Z := indexOf_from 0%Z x l.

(** Truthiness of a value that is [null] or a string. *)
Definition truthy (o : option string) : bool :=
  match o with
  | Some s => negb (String.eqb s "")
  | None => false
  end.

(** String conversion in [a + '-' + b]: [null] prints as ["null"]. *)
Definition str (o : option string) : string := default "null" o.

(** [a === b] where [a] is a string and [b] is [null] or a string. *)
Definition str_eq_opt (a : string) (b : option string) : bool :=
  match b with
  | Some s => String.eqb a s
  | None => false
  end.

(** [arr.pop()] on a non-empty array: the element removed and the rest. *)
Definition pop {A} (l : list A) : option (A * list A) :=
  match last l with
  | Some x => Some (x, removelast l)
  | None => None
  end.

End Js.

(** ** validator.js *)
Module Validator.
Import Js.

Definition is_joker_token (card : string) : bool :=
  String.eqb card "JOKER" || String.eqb card "J1" || String.eqb card "J2".

Definition normalizeCard (card : string) : string :=
  if is_joker_token card then card
  else if includes dash card then card
  else if (2 <=? String.length card)%nat then
    let rank := substring 0 (String.length card - 1) card in
    let suit := substring (String.length card - 1) 1 card in
    rank +:+ "-" +:+ suit
  else card.

Definition isWild (card : string) (jokerRank : option string) : bool :=
  let normalized := normalizeCard card in
  if is_joker_token normalized then true
  else if truthy jokerRank && includes dash normalized then
    let rank := hd "" (split dash normalized) in
    str_eq_opt rank jokerRank
  else false.

(** The object [parseCard] returns; [null] fields are [None]. *)
Record parsed := { rank : option string; suit : option string; wildToken : bool }.

Definition parseCard (card : string) : option parsed :=
  let normalized := normalizeCard card in
  if is_joker_token normalized then
    Some {| rank := None; suit := None; wildToken := true |}
  else
    match split dash normalized with
    | [r; s] => Some {| rank := Some r; suit := Some s; wildToken := false |}
    | _ => None
    end.

Definition RANK_ORDER : list string :=
  ["A"; "2"; "3"; "4"; "5"; "6"; "7"; "8"; "9"; "10"; "J"; "Q"; "K"].

Definition SUITS : list string := ["H"; "D"; "C"; "S"].

(** [rankValue(rank)]; a [null] rank is in no position of the table. *)
Definition rankValue (rank : option string) : Z :=
  match rank with
  | Some r => indexOf r RANK_ORDER
  | None => (-1)%Z
  end.

(** [bySuit[card.suit].push(card)], creating the bucket when absent;
    buckets stay in insertion order. *)
Fixpoint push_bucket (k : string) (c : parsed) (m : list (string * list parsed))
  : list (string * list parsed) :=
  match m with
  | [] => [(k, [c])]
  | (k', cs) :: m' =>
      if String.eqb k k' then (k', cs ++ [c]) :: m'
      else (k', cs) :: push_bucket k c m'
  end.

(** [bySuit[k]], [None] when the object has no such key. *)
Fixpoint bucket_of (k : string) (m : list (string * list parsed)) : option (list parsed) :=
  match m with
  | [] => None
  | (k', cs) :: m' => if String.eqb k k' then Some cs else bucket_of k m'
  end.

(** The first loop of [isSequence]: cards without a suit are skipped. *)
Definition bySuit_of (cards : list parsed) : list (string * list parsed) :=
  fold_left
    (fun acc card =>
       match suit card with
       | Some s => if String.eqb s "" then acc else push_bucket s card acc
       | None => acc
       end)
    cards [].

(** [suitCards.sort((a, b) => rankValue(a.rank) - rankValue(b.rank))],
    a stable sort. *)
Fixpoint insert_by_rank (c : parsed) (l : list parsed) : list parsed :=
  match l with
  | [] => [c]
  | d :: l' =>
      if (rankValue (rank d) <=? rankValue (rank c))%Z
      then d :: insert_by_rank c l'
      else c :: d :: l'
  end.

Definition sort_by_rank (l : list parsed) : list parsed :=
  fold_left (fun acc c => insert_by_rank c acc) l [].

(** One iteration of the inner [for] loop; the state is the previous
    rank value, [wildCount] and [consecutive]. *)
Definition run_step (st : Z * Z * Z) (r : Z) : Z * Z * Z :=
  let '(prev, wildCount, consecutive) := st in
  let diff := (r - prev)%Z in
  if (diff =? 1)%Z then (r, wildCount, (consecutive + 1)%Z)
  else if (1 <? diff)%Z && (diff - 1 <=? wildCount)%Z
       then (r, (wildCount - (diff - 1))%Z, (consecutive + diff)%Z)
       else (r, wildCount, 1%Z).

(** The body of the loop over suits for one bucket: [true] when the
    function returns [true] at this suit, [false] when the loop goes on. *)
Definition suit_passes (groupLength : nat) (jokerRank : option string)
           (bucket : list parsed) : bool :=
  let suitCards :=
    filter (fun c => isWild (str (rank c) +:+ "-" +:+ str (suit c)) jokerRank = false)
           bucket in
  match map (fun c => rankValue (rank c)) (sort_by_rank suitCards) with
  | [] => false
  | r0 :: rs =>
      let wildCount := (Z.of_nat groupLength - Z.of_nat (length suitCards))%Z in
      let '(_, wildCount', consecutive) := fold_left run_step rs (r0, wildCount, 1%Z) in
      (Z.of_nat groupLength <=? consecutive + wildCount')%Z
  end.

Definition isSequence (group : list string) (jokerRank : option string) : bool :=
  if (length group <? 3)%nat then false
  else
    let cards := omap parseCard group in
    if (length cards =? 0)%nat then false
    else existsb (fun b => suit_passes (length group) jokerRank (snd b))
                 (bySuit_of cards).

(** [ranks[card.rank] = (ranks[card.rank] || 0) + 1] over the cards that
    are neither wild nor without a rank. *)
Definition ranks_of (cards : list parsed) (jokerRank : option string) : gmap string nat :=
  fold_left
    (fun ranks card =>
       if isWild (str (rank card) +:+ "-" +:+ str (suit card)) jokerRank then ranks
       else match rank card with
            | Some r =>
                if String.eqb r "" then ranks
                else <[r := S (default 0 (ranks !! r))]> ranks
            | None => ranks
            end)
    cards ∅.

Definition isSet (group : list string) (jokerRank : option string) : bool :=
  if (length group <? 3)%nat then false
  else
    let cards := omap parseCard group in
    if (length cards =? 0)%nat then false
    else
      let uniqueRanks := size (ranks_of cards jokerRank) in
      if (uniqueRanks =? 0)%nat then true
      else if (uniqueRanks =? 1)%nat then true
      else false.

(** A submitted group is a bare array of tokens or an object [{cards}]. *)
Inductive group := GroupArr (cs : list string) | GroupObj (cs : list string).

(** [Array.isArray(group.cards) ? group.cards : group] *)
Definition groupCards (g : group) : list string :=
  match g with GroupArr cs | GroupObj cs => cs end.

Inductive validation :=
| Invalid (reason : string)
| Valid (pureSequences sequences sets : nat).


Definition expectedCount (gameType : Z) : nat :=
  if (gameType =? 21)%Z then 21 else 13.

(** The loop of [validateDeclare] over the groups, with its two early
    returns; the counters are [pureSequences], [sequences] and [sets]. *)
Fixpoint count_groups (groupedCards : list group) (jokerRank : option string)
         (pureSequences sequences sets : nat) : string + (nat * nat * nat) :=
  match groupedCards with
  | [] => inr (pureSequences, sequences, sets)
  | g :: rest =>
      let cs := groupCards g in
      if (length cs <? 3)%nat then inl "Groups must have at least 3 cards"
      else
        let hasWild := existsb (fun c => isWild c jokerRank) cs in
        let isSeq := isSequence cs jokerRank in
        let isSetGroup := isSet cs jokerRank in
        if isSeq && negb hasWild then
          count_groups rest jokerRank (S pureSequences) sequences sets
        else if isSeq then
          count_groups rest jokerRank pureSequences (S sequences) sets
        else if isSetGroup then
          count_groups rest jokerRank pureSequences sequences (S sets)
        else inl "Invalid group: not a sequence or set"
  end.

Definition validateDeclare (gameType : Z) (cards : list string)
           (groupedCards : list group) (jokerRank : option string) : validation :=
  if negb (length cards =? expectedCount gameType)%nat then
    Invalid (if (gameType =? 21)%Z then "Must have 21 cards" else "Must have 13 cards")
  else if (length groupedCards =? 0)%nat then Invalid "Invalid grouping"
  else
    match count_groups groupedCards jokerRank 0 0 0 with
    | inl reason => Invalid reason
    | inr (pureSequences, sequences, sets) =>
        if (gameType =? 13)%Z then
          if (pureSequences <? 1)%nat then Invalid "13-card: Need at least 1 pure sequence"
          else if (pureSequences + sequences <? 2)%nat then
            Invalid "13-card: Need at least 2 sequences total"
          else Valid pureSequences sequences sets
        else if (gameType =? 21)%Z then
          if (pureSequences <? 3)%nat then Invalid "21-card: Need at least 3 pure sequences"
          else if (pureSequences + sequences <? 4)%nat then
            Invalid "21-card: Need at least 4 sequences total"
          else Valid pureSequences sequences sets
        else Valid pureSequences sequences sets
    end.

(** [calculateDeadwood]: the set of every token of every group, then the
    hand filtered by absence from it. *)
Definition grouped_of (groupedCards : list group) : gset string :=
  fold_left
    (fun grouped g => fold_left (fun acc card => acc ∪ {[card]}) (groupCards g) grouped)
    groupedCards ∅.

Definition calculateDeadwood (cards : list string) (groupedCards : list group)
  : list string :=
  filter (fun c => c ∉ grouped_of groupedCards) cards.

End Validator.

(** ** scoring.js *)
Module Scoring.
Import Js Validator.

Definition CARD_POINTS : gmap string nat :=
  list_to_map
    [("A", 10); ("2", 2); ("3", 3); ("4", 4); ("5", 5); ("6", 6); ("7", 7);
     ("8", 8); ("9", 9); ("10", 10); ("J", 10); ("Q", 10); ("K", 10)].

(** [CARD_POINTS[rank] || 10]: no entry of the table is zero. *)
Definition cardPoint (card : string) : nat :=
  if is_joker_token card then 0
  else
    let rank :=
      if includes dash card then hd "" (split dash card)
      else if (2 <=? String.length card)%nat
           then substring 0 (String.length card - 1) card
           else "" in
    default 10 (CARD_POINTS !! rank).

(** Only groups of the [{cards}] shape feed the set here. *)
Definition grouped_of (groupedCards : list group) : gset string :=
  fold_left
    (fun grouped g =>
       match g with
       | GroupObj cs => fold_left (fun acc card => acc ∪ {[card]}) cs grouped
       | GroupArr _ => grouped
       end)
    groupedCards ∅.

Definition deadwoodPoints (cards : list string) (groupedCards : list group) : nat :=
  fold_left
    (fun points card =>
       if decide (card ∈ grouped_of groupedCards) then points
       else points + cardPoint card)
    cards 0.

End Scoring.

(** ** deck.js *)
Module Deck.
Import Validator.

Definition suits : list string := ["H"; "D"; "C"; "S"].
Definition ranks : list string :=
  ["A"; "2"; "3"; "4"; "5"; "6"; "7"; "8"; "9"; "10"; "J"; "Q"; "K"].

Definition one_deck : list string :=
  s ← suits; r ← ranks; [r +:+ "-" +:+ s].

Fixpoint decks (numDecks : nat) : list string :=
  match numDecks with
  | 0 => []
  | S d => one_deck ++ decks d
  end.

Definition createDeck (numDecks : nat) (useJokers : bool) : list string :=
  decks numDecks ++ (if useJokers then ["JOKER"; "JOKER"] else []).

(** [None] stands for the thrown "Not enough cards" error. *)
Definition getDecksForPlayers (playerCount cardsPerPlayer numDecks : nat)
           (useJokers : bool) : option (list string) :=
  let deck := createDeck numDecks useJokers in
  let totalCardsNeeded := playerCount * cardsPerPlayer + 1 in
  if (length deck <? totalCardsNeeded)%nat then None else Some deck.

End Deck.

(** ** gameManager.js *)
Module GameManager.
Import Js Validator Scoring Deck.

Record Player := {
  sid : string;            (* the source's [id]: the connection id *)
  userId : string;
  name : string;
  isBot : bool;
  disconnected : bool
}.

Inductive GameState := waiting | playing | ended.

Definition GameState_eqb (a b : GameState) : bool :=
  match a, b with
  | waiting, waiting | playing, playing | ended, ended => true
  | _, _ => false
  end.

Record Room := mkRoom {
  roomId : string;
  gameType : Z;
  maxPlayers : nat;
  practiceMode : bool;
  creatorUserId : string;
  players : list Player;
  gameState : GameState;
  deck : list string;
  discardPile : list string;
  joker : option string;
  jokerCard : option string;
  currentTurnIndex : nat;
  turnExpiresAt : option Z;
  hands : gmap string (list string);
  winnerIndex : option nat;
  createdAt : Z
}.

(** Field assignments [room.f = v]. *)
Definition set_players v (r : Room) : Room :=
  mkRoom (roomId r) (gameType r) (maxPlayers r) (practiceMode r) (creatorUserId r)
         v (gameState r) (deck r) (discardPile r) (joker r) (jokerCard r)
         (currentTurnIndex r) (turnExpiresAt r) (hands r) (winnerIndex r) (createdAt r).
Definition set_gameState v (r : Room) : Room :=
  mkRoom (roomId r) (gameType r) (maxPlayers r) (practiceMode r) (creatorUserId r)
         (players r) v (deck r) (discardPile r) (joker r) (jokerCard r)
         (currentTurnIndex r) (turnExpiresAt r) (hands r) (winnerIndex r) (createdAt r).
Definition set_deck v (r : Room) : Room :=
  mkRoom (roomId r) (gameType r) (maxPlayers r) (practiceMode r) (creatorUserId r)
         (players r) (gameState r) v (discardPile r) (joker r) (jokerCard r)
         (currentTurnIndex r) (turnExpiresAt r) (hands r) (winnerIndex r) (createdAt r).
Definition set_discardPile v (r : Room) : Room :=
  mkRoom (roomId r) (gameType r) (maxPlayers r) (practiceMode r) (creatorUserId r)
         (players r) (gameState r) (deck r) v (joker r) (jokerCard r)
         (currentTurnIndex r) (turnExpiresAt r) (hands r) (winnerIndex r) (createdAt r).
Definition set_joker v (r : Room) : Room :=
  mkRoom (roomId r) (gameType r) (maxPlayers r) (practiceMode r) (creatorUserId r)
         (players r) (gameState r) (deck r) (discardPile r) v (jokerCard r)
         (currentTurnIndex r) (turnExpiresAt r) (hands r) (winnerIndex r) (createdAt r).
Definition set_jokerCard v (r : Room) : Room :=
  mkRoom (roomId r) (gameType r) (maxPlayers r) (practiceMode r) (creatorUserId r)
         (players r) (gameState r) (deck r) (discardPile r) (joker r) v
         (currentTurnIndex r) (turnExpiresAt r) (hands r) (winnerIndex r) (createdAt r).
Definition set_currentTurnIndex v (r : Room) : Room :=
  mkRoom (roomId r) (gameType r) (maxPlayers r) (practiceMode r) (creatorUserId r)
         (players r) (gameState r) (deck r) (discardPile r) (joker r) (jokerCard r)
         v (turnExpiresAt r) (hands r) (winnerIndex r) (createdAt r).
Definition set_turnExpiresAt v (r : Room) : Room :=
  mkRoom (roomId r) (gameType r) (maxPlayers r) (practiceMode r) (creatorUserId r)
         (players r) (gameState r) (deck r) (discardPile r) (joker r) (jokerCard r)
         (currentTurnIndex r) v (hands r) (winnerIndex r) (createdAt r).
Definition set_hands v (r : Room) : Room :=
  mkRoom (roomId r) (gameType r) (maxPlayers r) (practiceMode r) (creatorUserId r)
         (players r) (gameState r) (deck r) (discardPile r) (joker r) (jokerCard r)
         (currentTurnIndex r) (turnExpiresAt r) v (winnerIndex r) (createdAt r).
Definition set_winnerIndex v (r : Room) : Room :=
  mkRoom (roomId r) (gameType r) (maxPlayers r) (practiceMode r) (creatorUserId r)
         (players r) (gameState r) (deck r) (discardPile r) (joker r) (jokerCard r)
         (currentTurnIndex r) (turnExpiresAt r) (hands r) v (createdAt r).

(** [createRoom]; the random room code and the clock are inputs. *)
Definition createRoom (newId : string) (now : Z) (gameType : Z) (maxPlayers : nat)
           (practiceMode : bool) (creatorUserId : string) : Room :=
  mkRoom newId gameType maxPlayers practiceMode creatorUserId
         [] waiting [] [] None None 0 None ∅ None now.

(** *** The engine's state and control flow

    An engine function works on the room object it was handed and on the
    store behind [redis.saveRoom].  Its body is a sequence of statements
    that may assign to the object and may leave the function early. *)
Record Eng := { obj : Room; redis : gmap string Room }.

(** What the caller gets: [{ok: true, ...}], [{ok: false, reason}], or an
    exception. *)
Inductive result (A : Type) :=
| Ok (a : A)
| NotOk (reason : string)
| Threw.
Arguments Ok {A} a.
Arguments NotOk {A} reason.
Arguments Threw {A}.

Definition M (R A : Type) : Type := Eng → (A + result R) * Eng.

Definition pure {R A} (a : A) : M R A := λ s, (inl a, s).
Definition leave {R A} (x : result R) : M R A := λ s, (inr x, s).
Definition bind {R A B} (m : M R A) (k : A → M R B) : M R B :=
  λ s, match m s with
       | (inl a, s') => k a s'
       | (inr x, s') => (inr x, s')
       end.

Notation "x <~ m ;; k" := (bind m (λ x, k))
  (at level 100, m at next level, right associativity).
Notation "m ;;; k" := (bind m (λ _, k))
  (at level 100, right associativity).

Definition getRoom {R} : M R Room := λ s, (inl (obj s), s).
Definition assign {R} (f : Room → Room) : M R unit :=
  λ s, (inl (), {| obj := f (obj s); redis := redis s |}).
(** [await redis.saveRoom(room)] *)
Definition saveRoom {R} : M R unit :=
  λ s, (inl (), {| obj := obj s; redis := <[roomId (obj s) := obj s]> (redis s) |}).

(** Running a body to the function's return value. *)
Definition call {R} (body : M R R) (s : Eng) : result R * Eng :=
  match body s with
  | (inl a, s') => (Ok a, s')
  | (inr x, s') => (x, s')
  end.

Definition cardsPerPlayer_of (gameType : Z) : nat :=
  if (gameType =? 21)%Z then 21 else 13.

(** The inner dealing loop: [cardsPerPlayer] times, pop a card into the
    hand if the deck still has one. *)
Fixpoint deal_hand (n : nat) (deck hand : list string) : list string * list string :=
  match n with
  | 0 => (hand, deck)
  | S n' =>
      match pop deck with
      | Some (c, deck') => deal_hand n' deck' (hand ++ [c])
      | None => deal_hand n' deck hand
      end
  end.

Fixpoint deal_players {R} (cardsPerPlayer : nat) (ps : list Player) : M R unit :=
  match ps with
  | [] => pure ()
  | player :: ps' =>
      r <~ getRoom ;;
      let '(hand, deck') := deal_hand cardsPerPlayer (deck r) [] in
      assign (set_deck deck') ;;;
      r <~ getRoom ;;
      assign (set_hands (<[userId player := hand]> (hands r))) ;;;
      deal_players cardsPerPlayer ps'
  end.

Section WithShuffle.
(** shuffle.js is not part of the sources at hand; the shuffle is a
    parameter, indexed by the randomness it consumes. *)
Variable shuffle : nat → list string → list string.

Definition startGame_body (seed : nat) : M unit unit :=
  room <~ getRoom ;;
  if negb (GameState_eqb (gameState room) waiting)
  then leave (NotOk "Game already started") else
  if (length (players room) <? 2)%nat
  then leave (NotOk "Need at least 2 players") else
  let cardsPerPlayer := cardsPerPlayer_of (gameType room) in
  match getDecksForPlayers (length (players room)) cardsPerPlayer 2 true with
  | None => leave Threw
  | Some fresh =>
      let deck0 := shuffle seed fresh in
      assign (set_deck deck0) ;;;
      match pop deck0 with
      | None => leave Threw
      | Some (starter, deck1) =>
          assign (set_deck deck1) ;;;
          assign (set_discardPile [starter]) ;;;
          assign (set_jokerCard
                    (if includes dash starter
                     then Some (hd "" (split dash starter)) else None)) ;;;
          room <~ getRoom ;;
          assign (set_joker (jokerCard room)) ;;;
          assign (set_gameState playing) ;;;
          assign (set_currentTurnIndex 0) ;;;
          assign (set_hands ∅) ;;;
          deal_players cardsPerPlayer (players room) ;;;
          saveRoom ;;;
          pure ()
      end
  end.

Definition startGame (seed : nat) : Eng → result unit * Eng :=
  call (startGame_body seed).

Definition pickCard_body (seed : nat) (uid source : string) : M unit unit :=
  room <~ getRoom ;;
  if negb (GameState_eqb (gameState room) playing)
  then leave (NotOk "Game not in progress") else
  match players room !! currentTurnIndex room with
  | None => leave Threw
  | Some currentPlayer =>
      if negb (String.eqb (userId currentPlayer) uid)
      then leave (NotOk "Not your turn") else
      match hands room !! uid with
      | None => leave (NotOk "Hand not found")
      | Some _ =>
          (if String.eqb source "deck" then
             (if (length (deck room) =? 0)%nat then
                if (1 <? length (discardPile room))%nat then
                  match pop (discardPile room) with
                  | Some (top, rest) =>
                      assign (set_discardPile rest) ;;;
                      assign (set_deck (shuffle seed rest)) ;;;
                      assign (set_discardPile [top])
                  | None => pure ()
                  end
                else leave (NotOk "No cards available")
              else pure ()) ;;;
             room <~ getRoom ;;
             match pop (deck room) with
             | Some (card, deck') =>
                 assign (set_deck deck') ;;;
                 room <~ getRoom ;;
                 assign (set_hands
                           (<[uid := default [] (hands room !! uid) ++ [card]]>
                              (hands room)))
             | None => pure ()
             end
           else if String.eqb source "discard" then
             if (length (discardPile room) =? 0)%nat
             then leave (NotOk "Discard pile is empty") else
             match pop (discardPile room) with
             | Some (card, rest) =>
                 assign (set_discardPile rest) ;;;
                 room <~ getRoom ;;
                 assign (set_hands
                           (<[uid := default [] (hands room !! uid) ++ [card]]>
                              (hands room)))
             | None => pure ()
             end
           else leave (NotOk "Invalid source")) ;;;
          saveRoom ;;;
          pure ()
      end
  end.

Definition pickCard (seed : nat) (uid source : string) : Eng → result unit * Eng :=
  call (pickCard_body seed uid source).

End WithShuffle.

Definition discardCard_body (now : Z) (uid card : string) : M unit unit :=
  room <~ getRoom ;;
  if negb (GameState_eqb (gameState room) playing)
  then leave (NotOk "Game not in progress") else
  match players room !! currentTurnIndex room with
  | None => leave Threw
  | Some currentPlayer =>
      if negb (String.eqb (userId currentPlayer) uid)
      then leave (NotOk "Not your turn") else
      match hands room !! uid with
      | None => leave (NotOk "Hand not found")
      | Some hand =>
          let cardIndex := indexOf card hand in
          if (cardIndex =? -1)%Z then leave (NotOk "Card not in hand") else
          assign (set_hands (<[uid := delete (Z.to_nat cardIndex) hand]> (hands room))) ;;;
          room <~ getRoom ;;
          assign (set_discardPile (discardPile room ++ [card])) ;;;
          room <~ getRoom ;;
          assign (set_currentTurnIndex
                    ((currentTurnIndex room + 1) mod length (players room))) ;;;
          assign (set_turnExpiresAt (Some (now + 30 * 1000)%Z)) ;;;
          saveRoom ;;;
          pure ()
      end
  end.

Definition discardCard (now : Z) (uid card : string) : Eng → result unit * Eng :=
  call (discardCard_body now uid card).

(** What a successful [declare] returns besides the room. *)
Record Declared := {
  d_winnerIndex : nat;
  d_winnerHand : list string;
  d_scores : list (nat * nat);      (* penalty, number of deadwood cards *)
  d_winnerGrouped : list group;
  d_scoreBreakdown : nat * nat * nat
}.

Definition declare_body (uid : string) (cards : list string)
           (groupedCards : option (list group)) : M Declared Declared :=
  room <~ getRoom ;;
  if negb (GameState_eqb (gameState room) playing)
  then leave (NotOk "Game not in progress") else
  match players room !! currentTurnIndex room with
  | None => leave Threw
  | Some currentPlayer =>
      if negb (String.eqb (userId currentPlayer) uid)
      then leave (NotOk "Not your turn") else
      match hands room !! uid with
      | None => leave (NotOk "Hand not found")
      | Some hand =>
          if negb (length hand =? length cards)%nat
          then leave (NotOk "Card count mismatch") else
          let groups := default [GroupObj cards] groupedCards in
          match validateDeclare (gameType room) cards groups (jokerCard room) with
          | Invalid reason => leave (NotOk reason)
          | Valid pureSequences sequences sets =>
              assign (set_gameState ended) ;;;
              assign (set_winnerIndex (Some (currentTurnIndex room))) ;;;
              let winnerHand := hand in
              let scores :=
                map (λ p,
                       let pHand := default [] (hands room !! userId p) in
                       let pDeadwood := calculateDeadwood pHand [GroupObj pHand] in
                       let pPts := deadwoodPoints pHand [GroupObj pHand] in
                       (pPts, length pDeadwood))
                    (players room) in
              saveRoom ;;;
              pure {| d_winnerIndex := currentTurnIndex room;
                      d_winnerHand := winnerHand;
                      d_scores := scores;
                      d_winnerGrouped := groups;
                      d_scoreBreakdown := (pureSequences, sequences, sets) |}
          end
      end
  end.

Definition declare (uid : string) (cards : list string)
           (groupedCards : option (list group)) : Eng → result Declared * Eng :=
  call (declare_body uid cards groupedCards).

(** [botPlay]; [rnd] stands for the draw of [Math.random()]: the index
    [Math.floor(Math.random() * hand.length)] is some index of the hand.
    The payload tells whether the function returned the room ([true]) or
    returned early with nothing ([false]). *)
Definition botPlay_body (now : Z) (rnd : nat) : M bool bool :=
  room <~ getRoom ;;
  match players room !! currentTurnIndex room with
  | None => leave Threw
  | Some currentPlayer =>
      if negb (isBot currentPlayer) then leave (Ok false) else
      let botUserId := userId currentPlayer in
      let hand0 := default [] (hands room !! botUserId) in
      hand1 <~ (if (0 <? length (deck room))%nat then
                  match pop (deck room) with
                  | Some (card, deck') =>
                      assign (set_deck deck') ;;;
                      room <~ getRoom ;;
                      assign (set_hands (<[botUserId := hand0 ++ [card]]> (hands room))) ;;;
                      pure (hand0 ++ [card])
                  | None => pure hand0
                  end
                else pure hand0) ;;
      (if (0 <? length hand1)%nat then
         let discardIndex := rnd mod length hand1 in
         match hand1 !! discardIndex with
         | Some discarded =>
             room <~ getRoom ;;
             assign (set_discardPile (discardPile room ++ [discarded])) ;;;
             room <~ getRoom ;;
             assign (set_hands (<[botUserId := delete discardIndex hand1]> (hands room)))
         | None => pure ()
         end
       else pure ()) ;;;
      room <~ getRoom ;;
      assign (set_currentTurnIndex
                ((currentTurnIndex room + 1) mod length (players room))) ;;;
      assign (set_turnExpiresAt (Some (now + 30 * 1000)%Z)) ;;;
      saveRoom ;;;
      pure true
  end.

Definition botPlay (now : Z) (rnd : nat) : Eng → result bool * Eng :=
  call (botPlay_body now rnd).

End GameManager.

(** ** The socket handlers: turn-timer coordinator and room transitions *)
Module Handlers.
Import Js GameManager.

(** Broadcasts the timer code sends to a room. *)
Inductive Event :=
| player_turn (room : string) (turnIndex : nat) (pile : list string)
| turn_timer_start (room : string) (expiresAt : option Z)
| turn_auto_play (room : string).

(** The shared store, the process-local [turnTimers] map (a handle is
    recorded by the delay it was scheduled with) and the events sent. *)
Record World := {
  store : gmap string Room;
  turnTimers : gmap string Z;
  outbox : list Event
}.

Definition emit (evs : list Event) (w : World) : World :=
  {| store := store w; turnTimers := turnTimers w; outbox := outbox w ++ evs |}.

Definition clearTurnTimer (rid : string) (w : World) : World :=
  match turnTimers w !! rid with
  | Some _ =>
      {| store := store w; turnTimers := delete rid (turnTimers w); outbox := outbox w |}
  | None => w
  end.

(** [startTurnTimer(room, io, redis)]; [now] is [Date.now()].  A
    deadline of [0] is falsy, like [null]. *)
Definition startTurnTimer (room : Room) (now : Z) (w : World) : World :=
  let w1 := clearTurnTimer (roomId room) w in
  match turnExpiresAt room with
  | None => w1
  | Some t =>
      if (t =? 0)%Z then w1
      else
        let delay := (t - now)%Z in
        if (delay <=? 0)%Z then w1
        else {| store := store w1;
                turnTimers := <[roomId room := delay]> (turnTimers w1);
                outbox := outbox w1 |}
  end.

(** The callback [startTurnTimer] schedules: the expiry action.  [now]
    is the clock inside the engine call, [now'] the clock when the timer
    is started again. *)
Definition turnExpired (rid : string) (now now' : Z) (rnd : nat) (w : World) : World :=
  match store w !! rid with
  | None => w
  | Some updatedRoom =>
      if negb (GameState_eqb (gameState updatedRoom) playing) then w
      else
        match players updatedRoom !! currentTurnIndex updatedRoom with
        | Some currentPlayer =>
            if isBot currentPlayer then
              let '(_, e) := botPlay now rnd {| obj := updatedRoom; redis := store w |} in
              let w1 := {| store := redis e; turnTimers := turnTimers w;
                           outbox := outbox w |} in
              startTurnTimer (obj e) now'
                (emit [player_turn rid (currentTurnIndex (obj e)) (discardPile (obj e));
                       turn_timer_start rid (turnExpiresAt (obj e))] w1)
            else
              let w0 := emit [turn_auto_play rid] w in
              match hands updatedRoom !! userId currentPlayer with
              | Some (first :: _) =>
                  let '(_, e) := discardCard now (userId currentPlayer) first
                                   {| obj := updatedRoom; redis := store w |} in
                  let w1 := {| store := redis e; turnTimers := turnTimers w0;
                               outbox := outbox w0 |} in
                  startTurnTimer (obj e) now'
                    (emit [player_turn rid (currentTurnIndex (obj e)) (discardPile (obj e));
                           turn_timer_start rid (turnExpiresAt (obj e))] w1)
              | _ => w0
              end
        | None => emit [turn_auto_play rid] w
        end
  end.

End Handlers.

(** ** The transitions of a room, as the handlers drive them *)
Module Session.
Import Js Validator Deck GameManager.

Definition current (r : Room) : option Player := players r !! currentTurnIndex r.

(** The transitions that act on a stored room. *)
Inductive action :=
| a_start (seed : nat) (now : Z)
| a_pick (seed : nat) (uid source : string)
| a_discard (now : Z) (uid card : string)
| a_declare (uid : string) (cards : list string) (groupedCards : option (list group))
| a_bot (now : Z) (rnd : nat)
| a_auto (now : Z).

Definition succeeded {A} (x : result A) : bool :=
  match x with Ok _ => true | _ => false end.

Section WithShuffle.
Variable shuffle : nat → list string → list string.

(** What each handler does with the room it fetched: whether the
    transition took place, and the engine state afterwards.
      - start_game arms the first deadline after a successful start;
      - the bot move runs only for a playing room whose current player
        is a bot (both callers test this before calling [botPlay]);
      - the timer's auto-play discards the first card of the current
        human player's hand, if there is one. *)
Definition perform (a : action) (e : Eng) : bool * Eng :=
  match a with
  | a_start seed now =>
      match startGame shuffle seed e with
      | (Ok _, e') =>
          (true, snd (call (assign (set_turnExpiresAt (Some (now + 30 * 1000)%Z)) ;;;
                            saveRoom) e'))
      | (_, e') => (false, e')
      end
  | a_pick seed uid source =>
      let '(x, e') := pickCard shuffle seed uid source e in (succeeded x, e')
  | a_discard now uid card =>
      let '(x, e') := discardCard now uid card e in (succeeded x, e')
  | a_declare uid cards groupedCards =>
      let '(x, e') := declare uid cards groupedCards e in (succeeded x, e')
  | a_bot now rnd =>
      if GameState_eqb (gameState (obj e)) playing then
        match current (obj e) with
        | Some p =>
            if isBot p then
              let '(x, e') := botPlay now rnd e in (succeeded x, e')
            else (false, e)
        | None => (false, e)
        end
      else (false, e)
  | a_auto now =>
      if GameState_eqb (gameState (obj e)) playing then
        match current (obj e) with
        | Some p =>
            if isBot p then (false, e)
            else
              match hands (obj e) !! userId p with
              | Some (first :: _) =>
                  let '(x, e') := discardCard now (userId p) first e in (succeeded x, e')
              | _ => (false, e)
              end
        | None => (false, e)
        end
      else (false, e)
  end.

(** The rooms the handlers can produce.  The handlers' payload checks
    only narrow the inputs, so every input is admitted; [reach_join]
    admits any player record, and [reach_rebind] covers rejoin, leave
    and disconnect, which rewrite connection ids and [disconnected]
    flags only. *)
Inductive reachable : Room → Prop :=
| reach_create newId now gt mp pm creator :
    reachable (set_players [creator] (createRoom newId now gt mp pm (userId creator)))
| reach_join r p :
    reachable r →
    gameState r = waiting →
    length (players r) < maxPlayers r →
    userId p ∉ map userId (players r) →
    reachable (set_players (players r ++ [p]) r)
| reach_rebind r ps :
    reachable r →
    map userId ps = map userId (players r) →
    map isBot ps = map isBot (players r) →
    reachable (set_players ps r)
| reach_step r a st :
    reachable r →
    reachable (obj (snd (perform a {| obj := r; redis := st |}))).

End WithShuffle.

(** The four engine transitions a client can ask for, and what the
    caller gets back. *)
Inductive request :=
| q_start (seed : nat)
| q_pick (seed : nat) (uid source : string)
| q_discard (now : Z) (uid card : string)
| q_declare (uid : string) (cards : list string) (groupedCards : option (list group)).

Inductive verdict := Accepted | Rejected (reason : string) | Raised.

Definition verdict_of {A} (x : result A) : verdict :=
  match x with
  | Ok _ => Accepted
  | NotOk reason => Rejected reason
  | Threw => Raised
  end.

Definition serve (shuffle : nat → list string → list string) (q : request) (e : Eng)
  : verdict * Eng :=
  match q with
  | q_start seed => let '(x, e') := startGame shuffle seed e in (verdict_of x, e')
  | q_pick seed uid source =>
      let '(x, e') := pickCard shuffle seed uid source e in (verdict_of x, e')
  | q_discard now uid card =>
      let '(x, e') := discardCard now uid card e in (verdict_of x, e')
  | q_declare uid cards groupedCards =>
      let '(x, e') := declare uid cards groupedCards e in (verdict_of x, e')
  end.


(** Every card a room holds: draw pile, discard pile, and all hands. *)
Definition hand_cards (h : gmap string (list string)) : list string :=
  concat (map snd (map_to_list h)).

Definition all_cards (r : Room) : list string :=
  deck r ++ discardPile r ++ hand_cards (hands r).

(** [|deck| + |discardPile| + Σ|hands|] *)
Definition total_count (r : Room) : nat :=
  length (deck r) + length (discardPile r)
  + map_fold (λ _ hand n, length hand + n) 0 (hands r).

(** What a transition never touches, and what it keeps up to order. *)
Definition conserves (r r' : Room) : Prop :=
  all_cards r' ≡ₚ all_cards r ∧
  players r' = players r ∧
  (gameState r' = gameState r ∨ gameState r = playing ∧ gameState r' = ended).



End Session.

(** ** The declare rule in the specification's words *)
Module DeclareRule.
Import Validator.









(** Every group has the [{cards}] shape. *)
Definition all_object_shaped (groups : list group) : Prop :=
  Forall (λ g, ∃ cs, g = GroupObj cs) groups.

End DeclareRule.

(** ** elo.js *)
Module Elo.
Local Open Scope R_scope.

Definition getKFactor (totalGames : Z) : Z :=
  if (totalGames <? 30)%Z then 40%Z else 32%Z.

Definition expectedScore (ratingA ratingB : Z) : R :=
  1 / (1 + Rpower 10 ((IZR ratingB - IZR ratingA) / 400)).

(** [Math.round]: the nearest integer, halves towards plus infinity. *)
Definition Math_round (x : R) : Z := Zfloor (x + / 2).

Record Opponent := { o_userId : string; o_rating : Z; o_won : bool }.

(** The two accumulators of the loop over the opponents. *)
Definition expectedSum (currentRating : Z) (opponents : list Opponent) : R :=
  fold_left (λ acc opponent, acc + expectedScore currentRating (o_rating opponent))
            opponents 0.

Definition actualSum (won : bool) (opponents : list Opponent) : R :=
  fold_left (λ acc opponent,
               if won then acc + 1
               else acc + (if o_won opponent then 0 else / 2))
            opponents 0.

Definition expectedAvg (currentRating : Z) (opponents : list Opponent) : R :=
  expectedSum currentRating opponents / INR (length opponents).

Definition actualAvg (won : bool) (opponents : list Opponent) : R :=
  actualSum won opponents / INR (length opponents).

Definition calculateNewRating (currentRating totalGames : Z) (won : bool)
           (opponents : list Opponent) : Z :=
  if (length opponents =? 0)%nat then currentRating
  else
    let K := getKFactor totalGames in
    let ratingChange :=
      IZR K * (actualAvg won opponents - expectedAvg currentRating opponents) in
    Math_round (IZR currentRating + ratingChange).

Inductive Tier := Bronze | Silver | Gold | Platinum | Diamond.

Definition getTierFromRating (rating : Z) : Tier :=
  if (rating <? 900)%Z then Bronze
  else if (rating <? 1100)%Z then Silver
  else if (rating <? 1300)%Z then Gold
  else if (rating <? 1500)%Z then Platinum
  else Diamond.

End Elo.

(** ** validator.js: the count check exported beside [validateDeclare] *)
Module HandCheck.

Inductive hand_validation := HandInvalid (reason : string) | HandValid.

(** [validateHand(cards, jokerRank, gameType)]; the joker rank is taken
    and not used. *)
Definition validateHand (cards : list string) (jokerRank : option string)
           (gameType : Z) : hand_validation :=
  if (length cards =? 0)%nat then HandInvalid "Invalid cards"
  else
    let expectedCount := if (gameType =? 21)%Z then 21 else 13 in
    if negb (length cards =? expectedCount)%nat then
      HandInvalid (if (gameType =? 21)%Z then "Must have 21 cards" else "Must have 13 cards")
    else HandValid.

End HandCheck.

(** ** The statistics records of the store (services/redis.js) *)
Module Stats.

(** A stored [stats:{userId}] object; a field the JSON text does not have
    is [None].  Only texts that parse are modelled: the store holds what
    [JSON.stringify] wrote. *)
Record StatsJson := {
  totalGames : option Z;
  wins : option Z;
  losses : option Z;
  rating : option Z;
  peakRating : option Z
}.

(** The store: the stats records by user id and the sorted set
    [leaderboard:elo] as its member-to-score map.  Expiry is left out. *)
Record Store := {
  stats : gmap string StatsJson;
  leaderboard : gmap string Z
}.

(** [x || 0] on a count that may be missing. *)
Definition or0 (x : option Z) : Z := default 0%Z x.

(** The start of the three writers: the default record, or the stored one
    with [rating ?? 1000] and [peakRating ?? rating]. *)
Definition load (raw : option StatsJson) : StatsJson :=
  match raw with
  | None =>
      {| totalGames := Some 0%Z; wins := Some 0%Z; losses := Some 0%Z;
         rating := Some 1000%Z; peakRating := Some 1000%Z |}
  | Some s =>
      let r := default 1000%Z (rating s) in
      {| totalGames := totalGames s; wins := wins s; losses := losses s;
         rating := Some r; peakRating := Some (default r (peakRating s)) |}
  end.

(** [s.totalGames = (s.totalGames || 0) + 1] and the win or loss count. *)
Definition count_game (won : bool) (s : StatsJson) : StatsJson :=
  {| totalGames := Some (or0 (totalGames s) + 1)%Z;
     wins := if won then Some (or0 (wins s) + 1)%Z else wins s;
     losses := if won then losses s else Some (or0 (losses s) + 1)%Z;
     rating := rating s; peakRating := peakRating s |}.

(** [s.rating = newRating] and the peak raised when exceeded.  After
    [load] both fields are present. *)
Definition set_rating (newRating : Z) (s : StatsJson) : StatsJson :=
  {| totalGames := totalGames s; wins := wins s; losses := losses s;
     rating := Some newRating;
     peakRating :=
       match peakRating s with
       | Some peak => if (peak <? newRating)%Z then Some newRating else Some peak
       | None => None
       end |}.

Definition recordGameResult (userId : string) (won : bool) (st : Store) : Store :=
  let s := count_game won (load (stats st !! userId)) in
  {| stats := <[userId := s]> (stats st); leaderboard := leaderboard st |}.

Definition updateRating (userId : string) (newRating : Z) (st : Store) : Store :=
  let s := set_rating newRating (load (stats st !! userId)) in
  {| stats := <[userId := s]> (stats st);
     leaderboard := <[userId := newRating]> (leaderboard st) |}.

Definition updateStatsAndRating (userId : string) (won : bool) (newRating : Z)
           (st : Store) : Store :=
  let s := set_rating newRating (count_game won (load (stats st !! userId))) in
  {| stats := <[userId := s]> (stats st);
     leaderboard := <[userId := newRating]> (leaderboard st) |}.

End Stats.

(** ** The lobby handlers: join_room, rejoin_room, leave_room *)
Module Lobby.
Import Js GameManager.

(** What the handlers keep in the store besides the rooms: the roster of
    connection ids of each room, the user-to-connection map and the
    player records. *)
Record Shared := {
  rooms : gmap string Room;
  rosters : gmap string (list string);
  userIdToSocketId : gmap string string;
  playerRecords : gmap string (string * string)
}.

Inductive ack := AckOk | AckFail (reason : string).

(** [arr.indexOf(x)] as an index, [None] for [-1]. *)
Fixpoint index_of (x : string) (l : list string) : option nat :=
  match l with
  | [] => None
  | y :: l' => if String.eqb y x then Some 0 else S <$> index_of x l'
  end.

(** [players.find(pred)] followed by assignments to the player found:
    the first match is rewritten in place. *)
Fixpoint update_first (pred : Player → bool) (f : Player → Player) (ps : list Player)
  : list Player :=
  match ps with
  | [] => []
  | p :: ps' => if pred p then f p :: ps' else p :: update_first pred f ps'
  end.

Definition mk_player (sock uid nm : string) : Player :=
  {| sid := sock; userId := uid; name := nm; isBot := false; disconnected := false |}.

(** join_room, from the fetched room on (the payload checks on [roomId]
    and [userId] come first); [sock] is [socket.id]. *)
Definition join_room (sock roomId : string) (username : option string) (uid : string)
           (w : Shared) : ack * Shared :=
  match rooms w !! roomId with
  | None => (AckFail "Room not found", w)
  | Some room =>
      if negb (GameState_eqb (gameState room) waiting)
      then (AckFail "Invalid game state: expected waiting", w)
      else if (maxPlayers room <=? length (players room))%nat
      then (AckFail "Room is full", w)
      else if existsb (λ p, String.eqb (userId p) uid) (players room)
      then (AckFail "Already in room", w)
      else
        let nm := if truthy username then default "" username
                  else "Player " +:+ pretty (length (players room) + 1)%nat in
        let room' := set_players (players room ++ [mk_player sock uid nm]) room in
        let playerIds := default [] (rosters w !! roomId) ++ [sock] in
        (AckOk,
         {| rooms := <[GameManager.roomId room' := room']> (rooms w);
            rosters := <[roomId := playerIds]> (rosters w);
            userIdToSocketId := <[uid := sock]> (userIdToSocketId w);
            playerRecords := <[uid := (roomId, sock)]> (playerRecords w) |})
  end.

(** rejoin_room, from the fetched room on. *)
Definition rejoin_room (sock roomId uid : string) (w : Shared) : ack * Shared :=
  match rooms w !! roomId with
  | None => (AckFail "Room not found", w)
  | Some room =>
      match List.find (λ p, String.eqb (userId p) uid) (players room) with
      | None => (AckFail "Not in room", w)
      | Some player =>
          let oldSocketId := sid player in
          let room' :=
            set_players
              (update_first (λ p, String.eqb (userId p) uid)
                 (λ p, {| sid := sock; userId := userId p; name := name p;
                          isBot := isBot p; disconnected := false |})
                 (players room)) room in
          let playerIds := default [] (rosters w !! roomId) in
          let playerIds' :=
            match index_of oldSocketId playerIds with
            | Some index => <[index := sock]> playerIds
            | None => playerIds ++ [sock]
            end in
          (AckOk,
           {| rooms := <[GameManager.roomId room' := room']> (rooms w);
              rosters := <[roomId := playerIds']> (rosters w);
              userIdToSocketId := <[uid := sock]> (userIdToSocketId w);
              playerRecords := playerRecords w |})
      end
  end.

(** leave_room, from the fetched room on: the player bound to this
    connection, if any, is marked disconnected. *)
Definition leave_room (sock roomId : string) (w : Shared) : Shared :=
  match rooms w !! roomId with
  | None => w
  | Some room =>
      if existsb (λ p, String.eqb (sid p) sock) (players room) then
        let room' :=
          set_players
            (update_first (λ p, String.eqb (sid p) sock)
               (λ p, {| sid := sid p; userId := userId p; name := name p;
                        isBot := isBot p; disconnected := true |})
               (players room)) room in
        {| rooms := <[GameManager.roomId room' := room']> (rooms w);
           rosters := rosters w;
           userIdToSocketId := userIdToSocketId w;
           playerRecords := playerRecords w |}
      else w
  end.

End Lobby.

(** ** Further notions used in the statements *)
Module Notions.
Import Validator GameManager Session Elo.

(** The run of [n] consecutive ranks of suit [s] that starts at position
    [i] of the rank table, in ascending order. *)
Definition run_of (s : string) (i n : nat) : list string :=
  map (λ r, r +:+ "-" +:+ s) (take n (drop i RANK_ORDER)).

(** The joker ranks a game can have: none, or the rank of a card. *)
Definition joker_ranks : list (option string) := None :: map Some RANK_ORDER.



Definition tier_level (t : Tier) : nat :=
  match t with Bronze => 0 | Silver => 1 | Gold => 2 | Platinum => 3 | Diamond => 4 end.

(** What a move in a started game leaves alone: the identity and the
    settings of the room, the seats, the joker, and the hands of the
    players whose turn it is not. *)
Definition same_table (r r' : Room) : Prop :=
  roomId r' = roomId r ∧ gameType r' = gameType r ∧ maxPlayers r' = maxPlayers r ∧
  practiceMode r' = practiceMode r ∧ creatorUserId r' = creatorUserId r ∧
  players r' = players r ∧ joker r' = joker r ∧ jokerCard r' = jokerCard r ∧
  createdAt r' = createdAt r ∧
  ∀ uid, (∀ p, current r = Some p → userId p ≠ uid) → hands r' !! uid = hands r !! uid.

End Notions.

(** ** Concrete rooms used to exercise the statements *)
Module Samples.
Import Deck GameManager Handlers.

Definition ann : Player :=
  {| sid := "s-ann"; userId := "ann"; name := "Ann"; isBot := false; disconnected := false |}.
Definition bob : Player :=
  {| sid := "s-bob"; userId := "bob"; name := "Bob"; isBot := false; disconnected := false |}.

(** The identity "shuffle": a permutation like any other. *)
Definition keep_order (seed : nat) (l : list string) : list string := l.

(** Two decks and two jokers, dealt thirteen cards each to two players;
    every other card has gone through to the discard pile, so the draw
    pile is empty.  The deadline [1000] was set thirty seconds before. *)
Definition late_room (first second : Player) : Room :=
  let full := createDeck 2 true in
  mkRoom "ROOM01" 13 2 true (userId first) [first; second] playing
         [] (drop 26 full) (Some "7") (Some "7") 0 (Some 1000%Z)
         (<[userId first := take 13 full]> (<[userId second := take 13 (drop 13 full)]> ∅))
         None 0.

(** The same deal just after the start: one card on the discard pile and
    the rest still to draw. *)
Definition early_room (first second : Player) : Room :=
  set_deck (drop 27 (createDeck 2 true))
    (set_discardPile (take 1 (drop 26 (createDeck 2 true))) (late_room first second)).

Definition late_humans : Room := late_room ann bob.

(** A room still waiting for its second player. *)
Definition lobby : Room :=
  set_players [ann] (createRoom "ROOM02" 0 13 2 true "ann").

Definition world_of (r : Room) : World :=
  {| store := {[ roomId r := r ]}; turnTimers := ∅; outbox := [] |}.

(** The lobby store holding one room, with the connections of its players
    as the roster. *)
Definition shared_of (r : Room) : Lobby.Shared :=
  {| Lobby.rooms := {[ roomId r := r ]};
     Lobby.rosters := {[ roomId r := map sid (players r) ]};
     Lobby.userIdToSocketId := ∅;
     Lobby.playerRecords := ∅ |}.

End Samples.

(** * Properties *)

Import Js Validator Scoring Deck GameManager Handlers Session DeclareRule.

(** ** Meld classification (validator.js) *)

(** A bucket that holds exactly one card that is not wild passes the suit
    loop whatever else the group holds: every other card of the group,
    wild or not, is counted in [wildCount]. *)
Lemma suit_passes_single (n : nat) (jokerRank : option string) (c : parsed) :
  isWild (str (rank c) +:+ "-" +:+ str (suit c)) jokerRank = false →
  suit_passes n jokerRank [c] = true.
Proof.
  intros Hw. unfold suit_passes.
  rewrite filter_cons_True by exact Hw.
  rewrite filter_nil. cbn.
  apply Z.leb_le. lia.
Qed.




Lemma bucket_of_push (k k' : string) (c : parsed) (m : list (string * list parsed)) :
  bucket_of k' (push_bucket k c m)
  = if String.eqb k' k then Some (default [] (bucket_of k m) ++ [c])
    else bucket_of k' m.
Proof.
  induction m as [|[k0 cs] m IH]; cbn [push_bucket bucket_of].
  - by destruct (String.eqb k' k).
  - destruct (String.eqb_spec k k0) as [->|Hk]; cbn [bucket_of].
    + by destruct (String.eqb k' k0).
    + destruct (String.eqb_spec k' k0) as [->|Hk'].
      * destruct (String.eqb_spec k0 k); [congruence | done].
      * exact IH.
Qed.

(** The bucket of a suit holds the cards of that suit, in group order. *)
Lemma bucket_of_bySuit (s : string) (cards : list parsed) :
  s ≠ "" →
  bucket_of s (bySuit_of cards)
  = match filter (λ c, suit c = Some s) cards with
    | [] => None
    | b => Some b
    end.
Proof.
  intros Hs. unfold bySuit_of.
  induction cards as [|c cards IH] using rev_ind; [done |].
  rewrite fold_left_app, filter_app. cbn [fold_left].
  destruct (suit c) as [t|] eqn:Ht.
  - destruct (String.eqb_spec t "") as [->|Hne].
    + rewrite IH, filter_cons_False, filter_nil, app_nil_r; [done |].
      rewrite Ht. congruence.
    + rewrite bucket_of_push. destruct (String.eqb_spec s t) as [->|Hst].
      * rewrite IH, filter_cons_True, filter_nil by done.
        by destruct (filter _ cards).
      * rewrite IH, filter_cons_False, filter_nil, app_nil_r; [done |].
        rewrite Ht. congruence.
  - rewrite IH, filter_cons_False, filter_nil, app_nil_r; [done |].
    rewrite Ht. congruence.
Qed.

Lemma bucket_of_elem (k : string) (b : list parsed) (m : list (string * list parsed)) :
  bucket_of k m = Some b → (k, b) ∈ m.
Proof.
  induction m as [|[k0 cs] m IH]; cbn [bucket_of]; [done |].
  destruct (String.eqb_spec k k0) as [->|Hk].
  - intros [= ->]. left.
  - intros H. right. by apply IH.
Qed.

(** A group of three or more tokens in which some card that is not wild
    is the only card of its suit is a sequence for [isSequence], whatever
    the other cards are. *)
Lemma lone_suited_card_makes_sequence (group : list string) (jokerRank : option string)
      (c : parsed) (s : string) :
  (3 ≤ length group)%nat →
  s ≠ "" →
  filter (λ c, suit c = Some s) (omap parseCard group) = [c] →
  isWild (str (rank c) +:+ "-" +:+ str (suit c)) jokerRank = false →
  isSequence group jokerRank = true.
Proof.
  intros Hlen Hs Hlone Hwild. unfold isSequence.
  destruct (Nat.ltb_spec (length group) 3) as [?|_]; [lia |].
  pose proof (bucket_of_bySuit s (omap parseCard group) Hs) as Hb.
  rewrite Hlone in Hb. apply bucket_of_elem in Hb.
  destruct (omap parseCard group) as [|c0 cards] eqn:Hcards; [inversion Hb |].
  cbn [length Nat.eqb].
  apply existsb_exists. exists (s, [c]). split.
  - by apply list_elem_of_In.
  - cbn [snd]. by apply suit_passes_single.
Qed.

(** C1 (the code departs from the claim): with no joker rank, the group
    2-H, 3-H, K-S holds no wild card and cards of two suits, yet
    [isSequence] accepts it and [validateDeclare]'s loop counts it as a
    pure sequence; three fives of three suits, a set, are counted as a pure
    sequence as well. *)
Theorem C1_off_suit_cards_counted_as_wild :
  existsb (λ c, isWild c None) ["2-H"; "3-H"; "K-S"] = false ∧
  omap parseCard ["2-H"; "3-H"; "K-S"] =
    [ {| rank := Some "2"; suit := Some "H"; wildToken := false |};
      {| rank := Some "3"; suit := Some "H"; wildToken := false |};
      {| rank := Some "K"; suit := Some "S"; wildToken := false |} ] ∧
  isSequence ["2-H"; "3-H"; "K-S"] None = true ∧
  count_groups [GroupObj ["2-H"; "3-H"; "K-S"]] None 0 0 0 = inr (1, 0, 0) ∧
  count_groups [GroupObj ["5-H"; "5-S"; "5-D"]] None 0 0 0 = inr (1, 0, 0).
Proof. repeat split; vm_compute; reflexivity. Qed.

(** ** Deadwood (validator.js, scoring.js) *)

Lemma fold_add_tokens (cs : list string) (s : gset string) (c : string) :
  c ∈ fold_left (λ acc card, acc ∪ {[card]}) cs s ↔ c ∈ s ∨ c ∈ cs.
Proof.
  revert s. induction cs as [|x cs IH]; intros s; cbn.
  - set_solver.
  - rewrite IH. set_solver.
Qed.

Lemma validator_grouped_acc (groups : list group) (s : gset string) (c : string) :
  c ∈ fold_left
        (λ grouped g, fold_left (λ acc card, acc ∪ {[card]}) (groupCards g) grouped)
        groups s
  ↔ c ∈ s ∨ ∃ g, g ∈ groups ∧ c ∈ groupCards g.
Proof.
  revert s. induction groups as [|g groups IH]; intros s; cbn.
  - split; [auto | intros [?|(g & Hg & _)]; [done | inversion Hg]].
  - rewrite IH, fold_add_tokens. split.
    + intros [[?|?]|(g' & Hg' & Hc)]; [by left | right; exists g; split; [left | done] |].
      right. exists g'. split; [by right | done].
    + intros [?|(g' & Hg' & Hc)]; [by left; left |].
      apply elem_of_cons in Hg' as [->|Hg']; [by left; right |].
      right. by exists g'.
Qed.

Lemma validator_grouped_spec (groups : list group) (c : string) :
  c ∈ Validator.grouped_of groups ↔ ∃ g, g ∈ groups ∧ c ∈ groupCards g.
Proof.
  unfold Validator.grouped_of. rewrite validator_grouped_acc. set_solver.
Qed.

Lemma scoring_grouped_acc (groups : list group) (s : gset string) :
  all_object_shaped groups →
  fold_left
    (λ grouped g,
       match g with
       | GroupObj cs => fold_left (λ acc card, acc ∪ {[card]}) cs grouped
       | GroupArr _ => grouped
       end) groups s
  = fold_left
      (λ grouped g, fold_left (λ acc card, acc ∪ {[card]}) (groupCards g) grouped)
      groups s.
Proof.
  intros Hall. revert s. induction Hall as [|g groups [cs ->] _ IH]; intros s; cbn.
  - reflexivity.
  - apply IH.
Qed.

Lemma points_fold (G : gset string) (cards : list string) (acc : nat) :
  fold_left (λ points card, if decide (card ∈ G) then points else points + cardPoint card)
            cards acc
  = acc + sum_list (cardPoint <$> filter (λ c, c ∉ G) cards).
Proof.
  revert acc. induction cards as [|c cards IH]; intros acc.
  - cbn. lia.
  - simpl fold_left. rewrite IH, filter_cons.
    destruct (decide (c ∈ G)) as [Hin|Hout]; destruct (decide (c ∉ G)); try done.
    cbn. lia.
Qed.

(** C10: a hand card is deadwood exactly when its token occurs in no
    group, so the deadwood is the hand filtered by that test and every copy
    of a grouped token is excluded; and when every group has the [{cards}]
    shape the penalty is the sum of the card points of the deadwood. *)
Theorem C10_deadwood_by_token_equality (cards : list string) (groups : list group) :
  (∀ c, c ∈ calculateDeadwood cards groups
        ↔ c ∈ cards ∧ ∀ g, g ∈ groups → c ∉ groupCards g) ∧
  calculateDeadwood cards groups
    = filter (λ c, Forall (λ g, c ∉ groupCards g) groups) cards ∧
  (all_object_shaped groups →
   deadwoodPoints cards groups = sum_list (cardPoint <$> calculateDeadwood cards groups)).
Proof.
  split; [|split].
  - intros c. unfold calculateDeadwood. rewrite list_elem_of_filter.
    rewrite validator_grouped_spec. naive_solver.
  - unfold calculateDeadwood. apply list_filter_iff. intros c.
    rewrite validator_grouped_spec, Forall_forall. naive_solver.
  - intros Hall. unfold deadwoodPoints, calculateDeadwood.
    rewrite points_fold. cbn.
    unfold Scoring.grouped_of, Validator.grouped_of.
    by rewrite scoring_grouped_acc.
Qed.

Lemma C10_deadwood_witness :
  deadwoodPoints ["2-H"; "9-S"; "2-H"; "K-D"] [GroupObj ["2-H"; "3-H"; "4-H"]]
  = sum_list (cardPoint <$>
                calculateDeadwood ["2-H"; "9-S"; "2-H"; "K-D"]
                                  [GroupObj ["2-H"; "3-H"; "4-H"]]).
Proof.
  apply (proj2 (proj2 (C10_deadwood_by_token_equality
                         ["2-H"; "9-S"; "2-H"; "K-D"] [GroupObj ["2-H"; "3-H"; "4-H"]]))).
  repeat constructor. by eexists.
Defined.

(** ** The declare rule (validator.js, [validateDeclare]) *)






(** The wildcard substitution of the specification: with joker rank 6,
    the run 4-H, 5-H, 7-H is completed by a six and counted as an impure
    sequence, and is no sequence without it. *)
Example wildcard_substitution :
  count_groups [GroupObj ["4-H"; "5-H"; "6-S"; "7-H"]] (Some "6") 0 0 0 = inr (0, 1, 0) ∧
  isSequence ["4-H"; "5-H"; "7-H"] (Some "6") = false ∧
  isSet ["4-H"; "5-H"; "7-H"] (Some "6") = false.
Proof. repeat split; vm_compute; reflexivity. Qed.

(** Thresholds are tested for game types 13 and 21 only: a room created
    with another game type declares on thirteen cards with no sequence. *)
Example validateDeclare_other_game_type :
  validateDeclare 7
    ["2-H"; "2-H"; "2-H"; "3-H"; "3-H"; "3-H"; "4-H"; "4-H"; "4-H";
     "5-H"; "5-H"; "5-H"; "5-H"]
    [GroupObj ["2-H"; "2-H"; "2-H"]; GroupObj ["3-H"; "3-H"; "3-H"];
     GroupObj ["4-H"; "4-H"; "4-H"]; GroupObj ["5-H"; "5-H"; "5-H"; "5-H"]]
    None
  = Valid 0 0 4.
Proof. vm_compute. reflexivity. Qed.


(** ** Rating update (elo.js) *)

Lemma Math_round_integer (z : Z) : Elo.Math_round (IZR z) = z.
Proof.
  unfold Elo.Math_round. apply Zfloor_eq. lra.
Qed.

Lemma expectedScore_equal (rating : Z) : Elo.expectedScore rating rating = (/ 2)%R.
Proof.
  unfold Elo.expectedScore.
  replace ((IZR rating - IZR rating) / 400)%R with 0%R by lra.
  rewrite Rpower_O by lra. lra.
Qed.

(** A lone opponent of the same rating: the rating moves by half the K
    factor, up for the winner and down for the loser. *)
Lemma calculateNewRating_two_players (rating totalGames : Z) (won : bool)
      (opponent : Elo.Opponent) :
  Elo.o_rating opponent = rating →
  Elo.o_won opponent = negb won →
  Elo.calculateNewRating rating totalGames won [opponent]
  = (if won then rating + Elo.getKFactor totalGames / 2
     else rating - Elo.getKFactor totalGames / 2)%Z.
Proof.
  intros Hr Hw. unfold Elo.calculateNewRating. cbn [length Nat.eqb].
  unfold Elo.actualAvg, Elo.expectedAvg, Elo.actualSum, Elo.expectedSum.
  cbn [fold_left length INR]. rewrite Hr, Hw, expectedScore_equal.
  unfold Elo.getKFactor.
  destruct (totalGames <? 30)%Z; destruct won; cbn [negb];
    match goal with
    | |- Elo.Math_round ?x = ?z =>
        replace x with (IZR z);
        [apply Math_round_integer
        | rewrite ?plus_IZR, ?minus_IZR;
          change (40 / 2)%Z with 20%Z; change (32 / 2)%Z with 16%Z; lra]
    end.
Qed.

(** C8: in a two-player game between equally rated players of the same K
    bucket the winner gains what the loser loses; in a three-player game
    the winner's average actual score is 1 and each loser's is 1/4. *)
Theorem C8_elo_symmetry_and_actual_scores :
  (∀ (rating gamesW gamesL : Z) (winner loser : Elo.Opponent),
     Elo.getKFactor gamesW = Elo.getKFactor gamesL →
     Elo.o_rating winner = rating → Elo.o_won winner = true →
     Elo.o_rating loser = rating → Elo.o_won loser = false →
     (Elo.calculateNewRating rating gamesW true [loser] - rating
      = rating - Elo.calculateNewRating rating gamesL false [winner])%Z) ∧
  (∀ winner loser1 loser2 : Elo.Opponent,
     Elo.o_won winner = true → Elo.o_won loser1 = false → Elo.o_won loser2 = false →
     Elo.actualAvg true [loser1; loser2] = 1%R ∧
     Elo.actualAvg false [winner; loser2] = (/ 4)%R ∧
     Elo.actualAvg false [winner; loser1] = (/ 4)%R).
Proof.
  split.
  - intros rating gamesW gamesL winner loser HK Hrw Hww Hrl Hwl.
    rewrite (calculateNewRating_two_players rating gamesW true loser) by done.
    rewrite (calculateNewRating_two_players rating gamesL false winner) by done.
    rewrite HK. lia.
  - intros winner loser1 loser2 Hw H1 H2.
    unfold Elo.actualAvg, Elo.actualSum. cbn [fold_left length INR].
    rewrite Hw, H1, H2. repeat split; lra.
Qed.

Lemma C8_elo_witness :
  (Elo.calculateNewRating 1000 5 true
     [{| Elo.o_userId := "bob"; Elo.o_rating := 1000; Elo.o_won := false |}] - 1000
   = 1000 - Elo.calculateNewRating 1000 12 false
              [{| Elo.o_userId := "ann"; Elo.o_rating := 1000; Elo.o_won := true |}])%Z.
Proof.
  apply (proj1 C8_elo_symmetry_and_actual_scores 1000%Z 5%Z 12%Z
           {| Elo.o_userId := "ann"; Elo.o_rating := 1000; Elo.o_won := true |}
           {| Elo.o_userId := "bob"; Elo.o_rating := 1000; Elo.o_won := false |});
    reflexivity.
Defined.

(** ** The session engine (gameManager.js) *)

(** Unfolding an engine function down to its state transformer. *)
Ltac engine_unfold :=
  unfold serve, startGame, pickCard, discardCard, declare, botPlay, call,
    startGame_body, pickCard_body, discardCard_body, declare_body, botPlay_body,
    bind, getRoom, leave, pure, assign, saveRoom in *;
  cbn [obj redis fst snd verdict_of] in *.

Lemma GameState_eqb_eq (a b : GameState) : GameState_eqb a b = true ↔ a = b.
Proof. destruct a, b; cbn; split; congruence. Qed.

Lemma GameState_eqb_neq (a b : GameState) : GameState_eqb a b = false ↔ a ≠ b.
Proof. destruct a, b; cbn; split; congruence. Qed.



Lemma indexOf_from_absent (i : Z) (x : string) (l : list string) :
  (0 ≤ i)%Z → indexOf_from i x l = (-1)%Z ↔ x ∉ l.
Proof.
  intros Hi. revert i Hi. induction l as [|y l IH]; intros i Hi; cbn [indexOf_from].
  - split; [intros _; apply not_elem_of_nil | done].
  - destruct (String.eqb y x) eqn:E.
    + apply String.eqb_eq in E as ->. split; [lia | intros H; exfalso; apply H; left].
    + apply String.eqb_neq in E. rewrite IH by lia.
      rewrite not_elem_of_cons. naive_solver.
Qed.

(** [hand.indexOf(card)] is [-1] exactly when the card is not held, and
    otherwise names a position that holds the card. *)
Lemma indexOf_absent (x : string) (l : list string) :
  indexOf x l = (-1)%Z ↔ x ∉ l.
Proof. by apply indexOf_from_absent. Qed.




Lemma pickCard_not_accepted sh seed uid source e x e' :
  pickCard sh seed uid source e = (x, e') → verdict_of x ≠ Accepted → e' = e.
Proof.
  engine_unfold. destruct e as [r st]. cbn [obj redis].
  repeat case_match; simplify_eq; cbn; intros; simplify_eq; done.
Qed.



(** Turning the tests of the source into propositions. *)
Ltac tests_to_props :=
  repeat match goal with
    | H : negb _ = true |- _ => apply negb_true_iff in H
    | H : negb _ = false |- _ => apply negb_false_iff in H
    | H : GameState_eqb _ _ = true |- _ => apply GameState_eqb_eq in H
    | H : GameState_eqb _ _ = false |- _ => apply GameState_eqb_neq in H
    | H : String.eqb _ _ = true |- _ => apply String.eqb_eq in H
    | H : String.eqb _ _ = false |- _ => apply String.eqb_neq in H
    | H : (_ =? _)%nat = true |- _ => apply Nat.eqb_eq in H
    | H : (_ =? _)%nat = false |- _ => apply Nat.eqb_neq in H
    | H : (_ <? _)%nat = true |- _ => apply Nat.ltb_lt in H
    | H : (_ <? _)%nat = false |- _ => apply Nat.ltb_ge in H
    | H : (_ =? _)%Z = true |- _ => apply Z.eqb_eq in H
    | H : (_ =? _)%Z = false |- _ => apply Z.eqb_neq in H
    end.


(** *** Turn order *)

(** The transitions that advance the turn, with the clock they read. *)
Lemma perform_discard_steps (shuffle : nat → list string → list string)
      (now : Z) (uid card : string) (e : Eng) :
  let '(ok, e') := perform shuffle (a_discard now uid card) e in
  if ok then
    currentTurnIndex (obj e')
      = (currentTurnIndex (obj e) + 1) mod length (players (obj e)) ∧
    turnExpiresAt (obj e') = Some (now + 30 * 1000)%Z
  else currentTurnIndex (obj e') = currentTurnIndex (obj e).
Proof.
  destruct e as [r st]. cbn [perform]. engine_unfold.
  repeat case_match; simplify_eq; cbn; done.
Qed.

Lemma perform_bot_steps (shuffle : nat → list string → list string)
      (now : Z) (rnd : nat) (e : Eng) :
  let '(ok, e') := perform shuffle (a_bot now rnd) e in
  if ok then
    currentTurnIndex (obj e')
      = (currentTurnIndex (obj e) + 1) mod length (players (obj e)) ∧
    turnExpiresAt (obj e') = Some (now + 30 * 1000)%Z
  else currentTurnIndex (obj e') = currentTurnIndex (obj e).
Proof.
  destruct e as [r st]. cbn [perform]. unfold current. engine_unfold.
  repeat case_match; simplify_eq; cbn; done.
Qed.

Lemma perform_auto_steps (shuffle : nat → list string → list string)
      (now : Z) (e : Eng) :
  let '(ok, e') := perform shuffle (a_auto now) e in
  if ok then
    currentTurnIndex (obj e')
      = (currentTurnIndex (obj e) + 1) mod length (players (obj e)) ∧
    turnExpiresAt (obj e') = Some (now + 30 * 1000)%Z
  else currentTurnIndex (obj e') = currentTurnIndex (obj e).
Proof.
  destruct e as [r st]. cbn [perform]. unfold current. engine_unfold.
  repeat case_match; simplify_eq; cbn; done.
Qed.

(** C5: on a playing room, start, pick and declare leave
    [currentTurnIndex] alone, and so do the rewrites of the player
    records; a discard, a bot move and an auto-play that take place move it
    one step forward modulo the number of players and set the deadline
    thirty seconds after the clock they read. *)
Theorem C5_turn_index_changes (shuffle : nat → list string → list string)
        (a : action) (e : Eng) :
  gameState (obj e) = playing →
  (∀ ps, currentTurnIndex (set_players ps (obj e)) = currentTurnIndex (obj e)) ∧
  let '(ok, e') := perform shuffle a e in
  match a with
  | a_discard now _ _ | a_bot now _ | a_auto now =>
      if ok then
        currentTurnIndex (obj e')
          = (currentTurnIndex (obj e) + 1) mod length (players (obj e)) ∧
        turnExpiresAt (obj e') = Some (now + 30 * 1000)%Z
      else currentTurnIndex (obj e') = currentTurnIndex (obj e)
  | a_start _ _ | a_pick _ _ _ | a_declare _ _ _ =>
      currentTurnIndex (obj e') = currentTurnIndex (obj e)
  end.
Proof.
  intros Hplaying. split; [done |].
  destruct a.
  - destruct e as [r st]. cbn [obj] in Hplaying. cbn [perform]. engine_unfold.
    rewrite Hplaying. cbn. done.
  - destruct e as [r st]. cbn [perform]. engine_unfold.
    repeat case_match; simplify_eq; cbn; done.
  - apply perform_discard_steps.
  - destruct e as [r st]. cbn [perform]. engine_unfold.
    repeat case_match; simplify_eq; cbn; done.
  - apply perform_bot_steps.
  - apply perform_auto_steps.
Qed.

Lemma C5_turn_index_witness :
  let e' := snd (perform Samples.keep_order (a_discard 5000 "ann" "A-H")
                   {| obj := Samples.late_humans; redis := ∅ |}) in
  currentTurnIndex (obj e') = 1 ∧ turnExpiresAt (obj e') = Some 35000%Z.
Proof.
  pose proof (C5_turn_index_changes Samples.keep_order (a_discard 5000 "ann" "A-H")
                {| obj := Samples.late_humans; redis := ∅ |} eq_refl) as [_ H].
  assert (Hok : fst (perform Samples.keep_order (a_discard 5000 "ann" "A-H")
                       {| obj := Samples.late_humans; redis := ∅ |}) = true)
    by (vm_compute; reflexivity).
  destruct (perform Samples.keep_order (a_discard 5000 "ann" "A-H")
              {| obj := Samples.late_humans; redis := ∅ |}) as [ok e'].
  cbn [fst snd] in *. subst ok. exact H.
Defined.


(** *** Popping the last card *)

Lemma pop_snoc {A} (l : list A) (x : A) : pop (l ++ [x]) = Some (x, l).
Proof. unfold pop. by rewrite last_snoc, removelast_last. Qed.

Lemma pop_Some {A} (l l' : list A) (x : A) : pop l = Some (x, l') ↔ l = l' ++ [x].
Proof.
  split.
  - unfold pop. destruct (last l) as [y|] eqn:E; [|done].
    apply last_Some in E as [l0 ->]. rewrite removelast_last. by intros [= -> ->].
  - intros ->. apply pop_snoc.
Qed.

Lemma pop_None {A} (l : list A) : pop l = None ↔ l = [].
Proof.
  unfold pop. destruct (last l) as [y|] eqn:E.
  - split; [done | intros ->; done].
  - apply last_None in E. by split.
Qed.

Lemma nonempty_snoc {A} (l : list A) : l ≠ [] → ∃ l' x, l = l' ++ [x].
Proof.
  intros Hne. destruct (pop l) as [[x l']|] eqn:E.
  - apply pop_Some in E. eauto.
  - by apply pop_None in E.
Qed.

(** *** The bot move *)




(** ** The turn-timer coordinator *)

(** C4 (as amended): when the deadline of the room handed to
    [startTurnTimer] is not in the future, the coordinator only cancels the
    room's pending local timer: nothing is scheduled, no expiry action
    runs, and the store and the outbox are as before. *)
Theorem C4_rearm_past_deadline_only_clears (room : Room) (now t : Z) (w : World) :
  turnExpiresAt room = Some t →
  (t - now ≤ 0)%Z →
  startTurnTimer room now w = clearTurnTimer (roomId room) w ∧
  turnTimers (startTurnTimer room now w) !! roomId room = None ∧
  store (startTurnTimer room now w) = store w ∧
  outbox (startTurnTimer room now w) = outbox w.
Proof.
  intros Ht Hpast.
  assert (E : startTurnTimer room now w = clearTurnTimer (roomId room) w).
  { unfold startTurnTimer. rewrite Ht.
    destruct (t =? 0)%Z; [done |].
    by destruct (Z.leb_spec (t - now) 0); [|lia]. }
  rewrite E. split; [done |]. unfold clearTurnTimer.
  destruct (turnTimers w !! roomId room) eqn:Hτ; cbn; [|done].
  by rewrite lookup_delete_eq.
Qed.

Lemma C4_rearm_witness :
  startTurnTimer Samples.late_humans 5000 (Samples.world_of Samples.late_humans)
    = clearTurnTimer "ROOM01" (Samples.world_of Samples.late_humans) ∧
  turnTimers (startTurnTimer Samples.late_humans 5000
                (Samples.world_of Samples.late_humans)) !! "ROOM01" = None ∧
  store (startTurnTimer Samples.late_humans 5000 (Samples.world_of Samples.late_humans))
    = store (Samples.world_of Samples.late_humans) ∧
  outbox (startTurnTimer Samples.late_humans 5000 (Samples.world_of Samples.late_humans))
    = outbox (Samples.world_of Samples.late_humans).
Proof.
  apply (C4_rearm_past_deadline_only_clears Samples.late_humans 5000 1000
           (Samples.world_of Samples.late_humans)).
  - reflexivity.
  - lia.
Defined.

(** C4 (the claim as stated fails): the stored deadline 1000 is in the
    past at time 5000; re-arming leaves the world as it was, with no timer
    and nothing sent, while the expiry action would have announced the
    auto-play and discarded for the player whose turn it is. *)
Lemma C4_rearm_past_deadline_counterexample :
  turnExpiresAt Samples.late_humans = Some 1000%Z ∧
  (1000 - 5000 ≤ 0)%Z ∧
  startTurnTimer Samples.late_humans 5000 (Samples.world_of Samples.late_humans)
    = Samples.world_of Samples.late_humans ∧
  outbox (turnExpired "ROOM01" 5000 5000 0 (Samples.world_of Samples.late_humans))
    ≠ outbox (startTurnTimer Samples.late_humans 5000
                (Samples.world_of Samples.late_humans)) ∧
  startTurnTimer Samples.late_humans 5000 (Samples.world_of Samples.late_humans)
    ≠ turnExpired "ROOM01" 5000 5000 0 (Samples.world_of Samples.late_humans).
Proof.
  assert (Hout : outbox (turnExpired "ROOM01" 5000 5000 0
                           (Samples.world_of Samples.late_humans))
                 ≠ outbox (startTurnTimer Samples.late_humans 5000
                             (Samples.world_of Samples.late_humans))).
  { vm_compute. discriminate. }
  repeat split; try (vm_compute; reflexivity); try lia; try exact Hout.
  intros E. apply Hout. by rewrite E.
Qed.

(** ** Card conservation *)


Lemma hand_cards_insert_fresh (h : gmap string (list string)) (k : string)
      (hand : list string) :
  h !! k = None → hand_cards (<[k := hand]> h) ≡ₚ hand ++ hand_cards h.
Proof.
  intros Hk. unfold hand_cards. by rewrite (map_to_list_insert h k hand Hk).
Qed.

Lemma hand_cards_lookup (h : gmap string (list string)) (k : string)
      (hand : list string) :
  h !! k = Some hand → hand_cards h ≡ₚ hand ++ hand_cards (delete k h).
Proof.
  intros Hk. unfold hand_cards. by rewrite <- (map_to_list_delete h k hand Hk).
Qed.

Lemma hand_cards_insert (h : gmap string (list string)) (k : string)
      (hand : list string) :
  hand_cards (<[k := hand]> h) ≡ₚ hand ++ hand_cards (delete k h).
Proof.
  rewrite <- insert_delete_eq.
  apply hand_cards_insert_fresh, lookup_delete_eq.
Qed.

(** Replacing a hand by a permutation of itself plus or minus some cards. *)
Lemma hand_cards_replace (h : gmap string (list string)) (k : string)
      (old new : list string) :
  h !! k = Some old →
  ∃ others, hand_cards h ≡ₚ old ++ others ∧
            hand_cards (<[k := new]> h) ≡ₚ new ++ others.
Proof.
  intros Hk. exists (hand_cards (delete k h)). split.
  - by apply hand_cards_lookup.
  - apply hand_cards_insert.
Qed.

Lemma hands_size_length (h : gmap string (list string)) :
  map_fold (λ _ hand n, length hand + n) 0 h = length (hand_cards h).
Proof.
  rewrite map_fold_foldr. unfold hand_cards.
  induction (map_to_list h) as [|[k hand] l IH]; cbn; [done |].
  rewrite length_app. by rewrite IH.
Qed.

Lemma total_count_length (r : Room) : total_count r = length (all_cards r).
Proof.
  unfold total_count, all_cards. rewrite hands_size_length, !length_app. lia.
Qed.



Lemma getDecksForPlayers_full (playerCount cardsPerPlayer : nat) (deck : list string) :
  getDecksForPlayers playerCount cardsPerPlayer 2 true = Some deck →
  deck = createDeck 2 true.
Proof.
  unfold getDecksForPlayers. case_match; [done |]. by intros [= <-].
Qed.

Section Conservation.
Variable shuffle : nat → list string → list string.
Hypothesis shuffle_permutes : ∀ seed l, shuffle seed l ≡ₚ l.


Lemma conserves_refl (r : Room) : conserves r r.
Proof. repeat split; auto. Qed.

(** Closing a conservation goal: the hands are split into the hand that
    changed and the others, the popped lists are written as appends, and
    what remains is a rearrangement. *)
Ltac conservation_goal :=
  tests_to_props;
  repeat match goal with
    | H : pop _ = Some _ |- _ => apply pop_Some in H; cbn in H
    | H : pop _ = None |- _ => apply pop_None in H; cbn in H
    | H : length _ = 0 |- _ => apply nil_length_inv in H
    end;
  unfold all_cards; cbn;
  repeat match goal with
    | H : ?h !! ?k = Some ?old |- context [?h !! ?k] => rewrite H; cbn [default]; unfold id
    end;
  try match goal with
    | H : ?h !! ?k = Some ?old |- context [<[?k := ?new]> ?h] =>
        destruct (hand_cards_replace h k old new H) as (others & -> & ->)
    end;
  repeat match goal with
    | H : _ = _ ++ [_] |- _ => rewrite H
    | H : _ = [] |- _ => rewrite H
    end;
  repeat match goal with
    | H : shuffle ?seed ?l = ?l' |- _ =>
        let Hp := fresh "Hp" in
        assert (Hp : l ≡ₚ l') by (rewrite <- H; symmetry; apply shuffle_permutes);
        clear H; try rewrite Hp; clear Hp
    end;
  rewrite ?shuffle_permutes.

Lemma pickCard_conserves (seed : nat) (uid source : string) (e : Eng) :
  conserves (obj e) (obj (snd (pickCard shuffle seed uid source e))).
Proof.
  destruct e as [r st]. engine_unfold.
  repeat case_match; simplify_eq; cbn [snd obj]; try apply conserves_refl.
  all: split; [|split; [reflexivity | left; reflexivity]].
  all: conservation_goal; solve_Permutation.
Qed.










End Conservation.


(** *** Recycling the discard pile *)

Section Recycling.
Variable shuffle : nat → list string → list string.
Hypothesis shuffle_permutes : ∀ seed l, shuffle seed l ≡ₚ l.

(** C6: for the player whose turn it is, on a playing room, a pick from
    an empty deck shuffles the discard pile without its top card into the
    deck, leaves that top card as the whole discard pile, and hands the
    player the last card of the new deck, keeping the cards and their
    number; the pick is refused with "No cards available" exactly when the
    deck is empty and the discard pile holds at most one card, and then
    nothing changes. *)
Theorem C6_pick_from_empty_deck (seed : nat) (uid : string) (p : Player)
        (hand : list string) (e : Eng) :
  gameState (obj e) = playing →
  current (obj e) = Some p →
  userId p = uid →
  hands (obj e) !! uid = Some hand →
  (∀ rest top,
     deck (obj e) = [] → discardPile (obj e) = rest ++ [top] → rest ≠ [] →
     ∃ deck' card e',
       shuffle seed rest = deck' ++ [card] ∧
       pickCard shuffle seed uid "deck" e = (Ok (), e') ∧
       deck (obj e') = deck' ∧
       discardPile (obj e') = [top] ∧
       hands (obj e') = <[uid := hand ++ [card]]> (hands (obj e)) ∧
       all_cards (obj e') ≡ₚ all_cards (obj e) ∧
       total_count (obj e') = total_count (obj e) ∧
       redis e' = <[roomId (obj e') := obj e']> (redis e)) ∧
  ((∃ e', pickCard shuffle seed uid "deck" e = (NotOk "No cards available", e'))
   ↔ deck (obj e) = [] ∧ (length (discardPile (obj e)) ≤ 1)%nat) ∧
  (∀ e', pickCard shuffle seed uid "deck" e = (NotOk "No cards available", e') → e' = e).
Proof.
  intros Hplaying Hcur Huid Hhand. unfold current in Hcur.
  split; [|split].
  - intros rest top Hdeck Hpile Hrest.
    assert (Hsh : shuffle seed rest ≠ []).
    { intros Hnil. pose proof (shuffle_permutes seed rest) as Hp.
      rewrite Hnil in Hp. by apply Permutation_nil_l in Hp. }
    destruct (nonempty_snoc _ Hsh) as (deck' & card & Hshuffled).
    exists deck', card.
    pose proof (pickCard_conserves shuffle shuffle_permutes seed uid "deck" e)
      as (Hcards & _ & _).
    destruct e as [r st]. cbn [obj redis] in *.
    revert Hcards. engine_unfold.
    assert (Hlen : (1 <? length (rest ++ [top]))%nat = true).
    { apply Nat.ltb_lt. rewrite length_app. cbn.
      destruct rest; [done | cbn; lia]. }
    rewrite Hplaying, Hcur, Huid, !String.eqb_refl, Hhand, Hdeck, Hpile.
    cbn [GameState_eqb negb length Nat.eqb].
    rewrite Hlen, pop_snoc. cbn [obj redis set_discardPile set_deck deck].
    rewrite Hshuffled, pop_snoc. cbn [obj redis snd].
    cbn [set_deck set_discardPile hands]. rewrite Hhand. cbn [default from_option id].
    intros Hcards.
    eexists. split; [done |]. split; [reflexivity |].
    cbn [obj redis]. repeat split; try done.
    rewrite !total_count_length. by apply Permutation_length.
  - destruct e as [r st]. cbn [obj redis] in *. engine_unfold.
    rewrite Hplaying, Hcur, Huid, !String.eqb_refl, Hhand.
    cbn [GameState_eqb negb]. split.
    + intros [e' He']. revert He'.
      repeat case_match; simplify_eq; intros; simplify_eq; tests_to_props.
      all: split; [by apply nil_length_inv | lia].
    + intros [Hdeck Hpile]. rewrite Hdeck. cbn [length Nat.eqb].
      assert ((1 <? length (discardPile r))%nat = false) as ->
        by (apply Nat.ltb_ge; lia).
      by eexists.
  - intros e' He'. eapply pickCard_not_accepted; [exact He' | done].
Qed.

End Recycling.

Lemma C6_pick_from_empty_deck_witness :
  (∃ e', pickCard Samples.keep_order 0 "ann" "deck"
           {| obj := Samples.late_humans; redis := ∅ |}
         = (NotOk "No cards available", e'))
  ↔ deck Samples.late_humans = [] ∧ (length (discardPile Samples.late_humans) ≤ 1)%nat.
Proof.
  apply (proj1 (proj2 (C6_pick_from_empty_deck Samples.keep_order (λ _ l, reflexivity l)
                         0 "ann" Samples.ann (take 13 (createDeck 2 true))
                         {| obj := Samples.late_humans; redis := ∅ |}
                         eq_refl eq_refl eq_refl ltac:(vm_compute; reflexivity)))).
Defined.

(** * Further properties of the code *)

Import Notions.

(** ** Card tokens (validator.js, scoring.js) *)

Lemma includes_append_dash (a b : string) : includes dash (a +:+ "-" +:+ b) = true.
Proof.
  induction a as [|x a IH]; [reflexivity |].
  change (String x a +:+ "-" +:+ b) with (String x (a +:+ "-" +:+ b)).
  cbn [includes]. by destruct (Ascii.eqb x dash).
Qed.

Lemma joker_token_cases (s : string) :
  is_joker_token s = true ↔ s = "JOKER" ∨ s = "J1" ∨ s = "J2".
Proof.
  unfold is_joker_token. rewrite !orb_true_iff, !String.eqb_eq. tauto.
Qed.

Lemma joker_token_no_dash (s : string) :
  is_joker_token s = true → includes dash s = false.
Proof. rewrite joker_token_cases. by intros [->|[->| ->]]. Qed.

Lemma dashed_not_joker_token (s : string) :
  includes dash s = true → is_joker_token s = false.
Proof.
  intros Hd. destruct (is_joker_token s) eqn:E; [|done].
  apply joker_token_no_dash in E. congruence.
Qed.

Lemma normalizeCard_joker_token (c : string) :
  is_joker_token (normalizeCard c) = is_joker_token c.
Proof.
  unfold normalizeCard. destruct (is_joker_token c) eqn:Hj; [done |].
  destruct (includes dash c) eqn:Hd; [done |].
  destruct (2 <=? String.length c)%nat; [|done].
  apply dashed_not_joker_token, includes_append_dash.
Qed.

Lemma normalizeCard_fixed_or_dashed (c : string) :
  normalizeCard c = c ∨ includes dash (normalizeCard c) = true.
Proof.
  unfold normalizeCard. destruct (is_joker_token c); [by left |].
  destruct (includes dash c); [by left |].
  destruct (2 <=? String.length c)%nat; [|by left].
  right. apply includes_append_dash.
Qed.

Lemma normalizeCard_dashed (c : string) : includes dash c = true → normalizeCard c = c.
Proof.
  intros Hd. unfold normalizeCard.
  by rewrite (dashed_not_joker_token c Hd), Hd.
Qed.

Lemma normalizeCard_idempotent (c : string) :
  normalizeCard (normalizeCard c) = normalizeCard c.
Proof.
  destruct (normalizeCard_fixed_or_dashed c) as [E|Hd].
  - by rewrite E.
  - by apply normalizeCard_dashed.
Qed.

(** Splitting a dash-free prefix off at its dash. *)
Lemma split_append_dash (a b : string) :
  includes dash a = false → split dash (a +:+ "-" +:+ b) = a :: split dash b.
Proof.
  induction a as [|x a IH]; cbn [append includes split].
  - intros _. reflexivity.
  - destruct (Ascii.eqb x dash) eqn:E; [done |]. intros Ha.
    change (String x a +:+ "-" +:+ b) with (String x (a +:+ "-" +:+ b)).
    cbn [split]. rewrite E. by rewrite (IH Ha).
Qed.

Lemma split_no_dash (s : string) : includes dash s = false → split dash s = [s].
Proof.
  induction s as [|x s IH]; cbn; [done |].
  destruct (Ascii.eqb x dash); [done |]. intros H. by rewrite (IH H).
Qed.

Lemma includes_substring (n m : nat) (s : string) :
  includes dash s = false → includes dash (substring n m s) = false.
Proof.
  revert n m. induction s as [|x s IH]; intros n m.
  - by destruct n, m.
  - cbn [includes]. destruct (Ascii.eqb x dash) eqn:E; [done |]. intros H.
    destruct n as [|n]; cbn [substring].
    + destruct m as [|m]; [done |]. cbn [includes]. rewrite E. by apply IH.
    + by apply IH.
Qed.

(** X1: normalising a token twice changes nothing, and the wild test, the
    parser and the point table give the same answer for a token and for
    its normal form: the legacy spelling and the dashed one are one card. *)
Theorem X1_normal_form_is_transparent (c : string) (jokerRank : option string) :
  normalizeCard (normalizeCard c) = normalizeCard c ∧
  isWild (normalizeCard c) jokerRank = isWild c jokerRank ∧
  parseCard (normalizeCard c) = parseCard c ∧
  cardPoint (normalizeCard c) = cardPoint c.
Proof.
  split; [apply normalizeCard_idempotent |].
  split; [unfold isWild; by rewrite normalizeCard_idempotent |].
  split; [unfold parseCard; by rewrite normalizeCard_idempotent |].
  unfold cardPoint. rewrite normalizeCard_joker_token.
  destruct (is_joker_token c) eqn:Hj; [done |].
  unfold normalizeCard. rewrite Hj.
  destruct (includes dash c) eqn:Hd; [by rewrite Hd |].
  destruct (2 <=? String.length c)%nat eqn:Hl.
  - rewrite includes_append_dash, split_append_dash; [done |].
    by apply includes_substring.
  - by rewrite Hd, Hl.
Qed.

(** X2: the three literal tokens are wild under every joker rank, and
    when the game has no joker rank ([null], or an empty rank) nothing
    else is. *)
Theorem X2_wild_without_joker_rank (c : string) (jokerRank : option string) :
  (is_joker_token c = true → isWild c jokerRank = true) ∧
  isWild c None = is_joker_token c ∧
  isWild c (Some "") = is_joker_token c.
Proof.
  unfold isWild. rewrite normalizeCard_joker_token.
  repeat split.
  - by intros ->.
  - by destruct (is_joker_token c).
  - by destruct (is_joker_token c).
Qed.

(** ** Sets and sequences (validator.js) *)















(** X5: every run of three or more consecutive ranks of one of the four
    suits, Ace low, is a sequence under every joker rank a game can have,
    and with no joker rank it holds no wild card, so it counts as pure. *)
Theorem X5_natural_runs_are_sequences (s : string) (i n : nat)
        (jokerRank : option string) :
  s ∈ SUITS → (3 ≤ n)%nat → (i + n ≤ 13)%nat → jokerRank ∈ joker_ranks →
  isSequence (run_of s i n) jokerRank = true ∧
  existsb (λ c, isWild c None) (run_of s i n) = false.
Proof.
  intros Hs Hn Hin Hj.
  assert (Hall :
    forallb (λ s,
      forallb (λ i,
        forallb (λ n,
          if (i + n <=? 13)%nat then
            forallb (λ j, isSequence (run_of s i n) j) joker_ranks
            && negb (existsb (λ c, isWild c None) (run_of s i n))
          else true) (seq 3 11)) (seq 0 11)) SUITS = true)
    by (vm_compute; reflexivity).
  rewrite forallb_forall in Hall.
  specialize (Hall s ltac:(by apply list_elem_of_In)). cbn beta in Hall.
  rewrite forallb_forall in Hall.
  specialize (Hall i ltac:(apply in_seq; lia)). cbn beta in Hall.
  rewrite forallb_forall in Hall.
  specialize (Hall n ltac:(apply in_seq; lia)). cbn beta in Hall.
  destruct (Nat.leb_spec (i + n) 13) as [_|?]; [|lia].
  apply andb_true_iff in Hall as [Hseq Hpure].
  rewrite forallb_forall in Hseq.
  split.
  - apply Hseq. by apply list_elem_of_In.
  - by apply negb_true_iff.
Qed.

Lemma X5_natural_runs_witness :
  isSequence (run_of "H" 3 4) (Some "5") = true ∧
  existsb (λ c, isWild c None) (run_of "H" 3 4) = false.
Proof.
  apply (X5_natural_runs_are_sequences "H" 3 4 (Some "5")).
  - left.
  - lia.
  - lia.
  - unfold joker_ranks. do 5 right. left.
Defined.

Lemma count_groups_total (jokerRank : option string) (groups : list group)
      (p s t p' s' t' : nat) :
  count_groups groups jokerRank p s t = inr (p', s', t') →
  (p' + s' + t' = p + s + t + length groups)%nat ∧
  Forall (λ g, (3 ≤ length (groupCards g))%nat) groups.
Proof.
  revert p s t. induction groups as [|g groups IH]; intros p s t; cbn [count_groups].
  - intros [= <- <- <-]. split; [cbn; lia | constructor].
  - destruct (Nat.ltb_spec (length (groupCards g)) 3) as [?|Hlen]; [done |].
    repeat case_match; try done; intros Hrest; apply IH in Hrest as [Hsum Hall];
      (split; [cbn [length]; lia | by constructor]).
Qed.

(** X6: when [validateDeclare] accepts, the three counts it returns add
    up to the number of groups (each group is counted in exactly one
    class), there is at least one group, every group has three cards or
    more, the declared cards pass [validateHand], and the counts meet the
    thresholds of the 13-card and the 21-card game. *)
Theorem X6_accepted_declare_counts (gameType : Z) (cards : list string)
        (groups : list group) (jokerRank : option string) (p s t : nat) :
  validateDeclare gameType cards groups jokerRank = Valid p s t →
  (p + s + t = length groups)%nat ∧
  groups ≠ [] ∧
  Forall (λ g, (3 ≤ length (groupCards g))%nat) groups ∧
  HandCheck.validateHand cards jokerRank gameType = HandCheck.HandValid ∧
  (gameType = 13%Z → (1 ≤ p)%nat ∧ (2 ≤ p + s)%nat) ∧
  (gameType = 21%Z → (3 ≤ p)%nat ∧ (4 ≤ p + s)%nat).
Proof.
  unfold validateDeclare, HandCheck.validateHand.
  destruct (length cards =? expectedCount gameType)%nat eqn:Hlen; [|done].
  cbn [negb]. destruct groups as [|g groups]; [done |]. cbn [length Nat.eqb].
  destruct (count_groups (g :: groups) jokerRank 0 0 0) as [?|[[p0 s0] t0]] eqn:Hc; [done |].
  apply count_groups_total in Hc as [Hsum Hall].
  assert (Hhand : (if (length cards =? 0)%nat then HandCheck.HandInvalid "Invalid cards"
                   else if negb (length cards =? (if (gameType =? 21)%Z then 21 else 13))%nat
                        then HandCheck.HandInvalid
                               (if (gameType =? 21)%Z then "Must have 21 cards"
                                else "Must have 13 cards")
                        else HandCheck.HandValid) = HandCheck.HandValid).
  { apply Nat.eqb_eq in Hlen. unfold expectedCount in Hlen.
    destruct (gameType =? 21)%Z; rewrite Hlen; reflexivity. }
  destruct (Z.eqb_spec gameType 13) as [E13|N13];
    [|destruct (Z.eqb_spec gameType 21) as [E21|N21]].
  - destruct (Nat.ltb_spec p0 1); [done |].
    destruct (Nat.ltb_spec (p0 + s0) 2); [done |].
    intros [= <- <- <-]. repeat split; try done; lia.
  - destruct (Nat.ltb_spec p0 3); [done |].
    destruct (Nat.ltb_spec (p0 + s0) 4); [done |].
    intros [= <- <- <-]. repeat split; try done; lia.
  - intros [= <- <- <-]. repeat split; try done; lia.
Qed.

Lemma X6_accepted_declare_witness :
  (3 + 0 + 1 = 4)%nat ∧
  [GroupObj ["A-H"; "2-H"; "3-H"]; GroupObj ["4-S"; "5-S"; "6-S"];
   GroupObj ["7-D"; "8-D"; "9-D"; "10-D"]; GroupObj ["K-H"; "K-H"; "K-H"]] ≠ [] ∧
  Forall (λ g, (3 ≤ length (groupCards g))%nat)
    [GroupObj ["A-H"; "2-H"; "3-H"]; GroupObj ["4-S"; "5-S"; "6-S"];
     GroupObj ["7-D"; "8-D"; "9-D"; "10-D"]; GroupObj ["K-H"; "K-H"; "K-H"]] ∧
  HandCheck.validateHand
    ["A-H"; "2-H"; "3-H"; "4-S"; "5-S"; "6-S"; "7-D"; "8-D"; "9-D"; "10-D";
     "K-H"; "K-H"; "K-H"] None 13 = HandCheck.HandValid ∧
  (13%Z = 13%Z → (1 ≤ 3)%nat ∧ (2 ≤ 3 + 0)%nat) ∧
  (13%Z = 21%Z → (3 ≤ 3)%nat ∧ (4 ≤ 3 + 0)%nat).
Proof.
  apply (X6_accepted_declare_counts 13
           ["A-H"; "2-H"; "3-H"; "4-S"; "5-S"; "6-S"; "7-D"; "8-D"; "9-D"; "10-D";
            "K-H"; "K-H"; "K-H"]
           [GroupObj ["A-H"; "2-H"; "3-H"]; GroupObj ["4-S"; "5-S"; "6-S"];
            GroupObj ["7-D"; "8-D"; "9-D"; "10-D"]; GroupObj ["K-H"; "K-H"; "K-H"]]
           None 3 0 1).
  vm_compute. reflexivity.
Defined.

(** ** Card points and deadwood (scoring.js, validator.js) *)











(** ** The deck (deck.js) *)

Lemma length_decks (numDecks : nat) : length (decks numDecks) = (52 * numDecks)%nat.
Proof.
  induction numDecks as [|d IH]; [done |].
  cbn [decks]. rewrite length_app, IH.
  change (length one_deck) with 52%nat. lia.
Qed.

Lemma length_createDeck (numDecks : nat) (useJokers : bool) :
  length (createDeck numDecks useJokers)
  = (52 * numDecks + (if useJokers then 2 else 0))%nat.
Proof.
  unfold createDeck. rewrite length_app, length_decks. by destruct useJokers.
Qed.

Lemma occurrences_decks (c : string) (k numDecks : nat) :
  length (filter (c =.) one_deck) = k →
  length (filter (c =.) (decks numDecks)) = (k * numDecks)%nat.
Proof.
  intros Hk. induction numDecks as [|d IH]; [cbn; lia |].
  cbn [decks]. rewrite filter_app, length_app, IH, Hk. lia.
Qed.

Lemma elem_of_decks (c : string) (numDecks : nat) :
  c ∈ decks numDecks → c ∈ one_deck.
Proof.
  induction numDecks as [|d IH]; cbn [decks].
  - by intros ?%elem_of_nil.
  - rewrite elem_of_app. intros [?|?]; auto.
Qed.

Lemma elem_of_one_deck (c : string) :
  c ∈ one_deck ↔ ∃ r s, r ∈ RANK_ORDER ∧ s ∈ SUITS ∧ c = r +:+ "-" +:+ s.
Proof.
  unfold one_deck. rewrite list_elem_of_bind. split.
  - intros (s & Hc & Hs). apply list_elem_of_bind in Hc as (r & Hc & Hr).
    apply list_elem_of_singleton in Hc. by exists r, s.
  - intros (r & s & Hr & Hs & ->). exists s. split; [|done].
    apply list_elem_of_bind. exists r. split; [|done]. by apply list_elem_of_singleton.
Qed.

Lemma rank_no_dash (r : string) : r ∈ RANK_ORDER → includes dash r = false.
Proof.
  intros Hr. unfold RANK_ORDER in Hr.
  repeat (apply elem_of_cons in Hr as [->|Hr]; [reflexivity |]). inversion Hr.
Qed.

Lemma suit_no_dash (s : string) : s ∈ SUITS → includes dash s = false.
Proof.
  intros Hs. unfold SUITS in Hs.
  repeat (apply elem_of_cons in Hs as [->|Hs]; [reflexivity |]). inversion Hs.
Qed.

(** X10: [createDeck] makes 52 cards a deck and two more when jokers are
    asked for; each of the 52 distinct rank-suit tokens occurs once per
    deck and the token JOKER twice or not at all; and every card made is
    already in normal form and is read back by [parseCard] as the rank and
    suit it was made from, or is the joker token. *)
Theorem X10_createDeck_contents (numDecks : nat) (useJokers : bool) :
  length (createDeck numDecks useJokers)
  = (52 * numDecks + (if useJokers then 2 else 0))%nat ∧
  NoDup one_deck ∧
  Forall (λ c, length (filter (c =.) (createDeck numDecks useJokers)) = numDecks)
         one_deck ∧
  length (filter ("JOKER" =.) (createDeck numDecks useJokers))
  = (if useJokers then 2 else 0)%nat ∧
  Forall (λ c, normalizeCard c = c ∧
               (c = "JOKER" ∨
                ∃ r s, r ∈ RANK_ORDER ∧ s ∈ SUITS ∧ c = r +:+ "-" +:+ s ∧
                       parseCard c
                       = Some {| rank := Some r; suit := Some s; wildToken := false |}))
         (createDeck numDecks useJokers).
Proof.
  split; [apply length_createDeck |].
  split; [apply (bool_decide_unpack _); by vm_compute |].
  split; [|split].
  - assert (Hone : Forall (λ c, length (filter (c =.) one_deck) = 1%nat
                              ∧ length (filter (c =.) ["JOKER"; "JOKER"]) = 0%nat) one_deck).
    { apply (bool_decide_unpack _). by vm_compute. }
    eapply Forall_impl; [exact Hone |]. intros c [H1 H0]. cbn beta.
    unfold createDeck. rewrite filter_app, length_app, (occurrences_decks c 1 numDecks H1).
    destruct useJokers; [rewrite H0 | cbn]; lia.
  - unfold createDeck.
    rewrite filter_app, length_app, (occurrences_decks "JOKER" 0 numDecks); [|done].
    by destruct useJokers.
  - apply Forall_forall. intros c Hc. unfold createDeck in Hc.
    apply elem_of_app in Hc as [Hc|Hc].
    + apply elem_of_decks, elem_of_one_deck in Hc as (r & s & Hr & Hs & ->).
      split; [apply normalizeCard_dashed, includes_append_dash |].
      right. exists r, s. repeat split; try done.
      unfold parseCard.
      rewrite (normalizeCard_dashed _ (includes_append_dash r s)).
      rewrite (dashed_not_joker_token _ (includes_append_dash r s)).
      rewrite (split_append_dash r s (rank_no_dash r Hr)).
      by rewrite (split_no_dash s (suit_no_dash s Hs)).
    + destruct useJokers; [|by apply elem_of_nil in Hc].
      assert (c = "JOKER") as -> by set_solver. split; [done | by left].
Qed.

(** X11: [getDecksForPlayers] throws exactly when the deck is shorter
    than the players' cards plus the starter, and otherwise returns the
    whole new deck.  With two decks and jokers, as [startGame] asks, that
    serves up to eight players at 13 cards and up to five at 21. *)
Theorem X11_getDecksForPlayers_threshold
        (playerCount cardsPerPlayer numDecks : nat) (useJokers : bool) :
  getDecksForPlayers playerCount cardsPerPlayer numDecks useJokers
  = (if decide (playerCount * cardsPerPlayer + 1
                ≤ 52 * numDecks + (if useJokers then 2 else 0))%nat
     then Some (createDeck numDecks useJokers) else None) ∧
  (getDecksForPlayers playerCount 13 2 true = None ↔ (9 ≤ playerCount)%nat) ∧
  (getDecksForPlayers playerCount 21 2 true = None ↔ (6 ≤ playerCount)%nat).
Proof.
  assert (Hgen : ∀ cpp n j,
    getDecksForPlayers playerCount cpp n j
    = (if decide (playerCount * cpp + 1 ≤ 52 * n + (if j then 2 else 0))%nat
       then Some (createDeck n j) else None)).
  { intros cpp n j. unfold getDecksForPlayers. rewrite length_createDeck.
    destruct (Nat.ltb_spec (52 * n + (if j then 2 else 0)) (playerCount * cpp + 1));
      case_decide; try done; lia. }
  split; [apply Hgen |].
  split; rewrite Hgen; case_decide; split; try done; lia.
Qed.

(** ** The deal (gameManager.js, [startGame]) *)

Lemma deal_hand_spec (n : nat) (deck hand : list string) :
  deal_hand n deck hand
  = (hand ++ take n (reverse deck), take (length deck - n) deck).
Proof.
  revert deck hand. induction n as [|n IH]; intros deck hand; cbn [deal_hand].
  - by rewrite take_0, app_nil_r, Nat.sub_0_r, firstn_all.
  - destruct (pop deck) as [[c deck']|] eqn:Hpop.
    + apply pop_Some in Hpop as ->.
      rewrite IH, reverse_snoc, firstn_cons, <- app_assoc. cbn [app]. f_equal.
      rewrite length_app. cbn [length].
      replace (length deck' + 1 - S n)%nat with (length deck' - n)%nat by lia.
      symmetry. apply take_app_le. lia.
    + apply pop_None in Hpop as ->. rewrite IH. cbn. by rewrite !take_nil.
Qed.

Lemma deal_players_spec {R} (cpp : nat) (ps : list Player) (e : Eng) :
  ∃ H',
    @deal_players R cpp ps e
    = (inl (),
       {| obj := set_hands H'
                   (set_deck (take (length (deck (obj e)) - length ps * cpp)
                                   (deck (obj e))) (obj e));
          redis := redis e |}) ∧
    (∀ k, k ∉ map userId ps → H' !! k = hands (obj e) !! k) ∧
    (∀ k, k ∈ map userId ps → is_Some (H' !! k)) ∧
    (NoDup (map userId ps) → ∀ i p, ps !! i = Some p →
       H' !! userId p = Some (take cpp (drop (i * cpp) (reverse (deck (obj e)))))).
Proof.
  revert e. induction ps as [|p ps IH]; intros [r st].
  - exists (hands r). cbn [deal_players pure obj redis length]. split.
    { destruct r. unfold set_hands, set_deck. cbn.
      by rewrite Nat.sub_0_r, firstn_all. }
    split; [done |]. split; [by intros k ?%elem_of_nil |].
    intros _ i p Hp. by rewrite lookup_nil in Hp.
  - cbn [deal_players]. unfold bind at 1, getRoom at 1. cbn [obj redis].
    rewrite deal_hand_spec. cbn [app].
    unfold bind, getRoom, assign. cbn [obj redis].
    match goal with |- context [deal_players cpp ps ?e1] =>
      destruct (IH e1) as (H' & Hrun & Hout & Hin & Hnd) end.
    exists H'. cbn [obj redis] in *. rewrite Hrun. clear Hrun IH.
    set (d := deck r) in *.
    assert (Hd : deck (set_hands
                         (<[userId p:=take cpp (reverse d)]>
                            (hands (set_deck (take (length d - cpp) d) r)))
                         (set_deck (take (length d - cpp) d) r))
                 = take (length d - cpp) d) by reflexivity.
    rewrite Hd in *. clear Hd.
    assert (Hh : hands (set_hands
                         (<[userId p:=take cpp (reverse d)]>
                            (hands (set_deck (take (length d - cpp) d) r)))
                         (set_deck (take (length d - cpp) d) r))
                 = <[userId p:=take cpp (reverse d)]> (hands r)) by reflexivity.
    rewrite Hh in *. clear Hh.
    split; [|split; [|split]].
    + f_equal. f_equal. unfold set_hands, set_deck. cbn. f_equal.
      rewrite take_take, length_take. f_equal. cbn [length]. lia.
    + intros k Hk. cbn [map] in Hk. apply not_elem_of_cons in Hk as [Hk1 Hk2].
      rewrite (Hout k Hk2). by apply lookup_insert_ne.
    + intros k Hk. cbn [map] in Hk.
      destruct (decide (k ∈ map userId ps)) as [Hin'|Hout']; [by apply Hin |].
      apply elem_of_cons in Hk as [->|Hk]; [|done].
      rewrite (Hout _ Hout'), lookup_insert_eq. by eexists.
    + intros Hdup i q Hq. cbn [map] in Hdup. apply NoDup_cons in Hdup as [Hp Hdup].
      destruct i as [|i]; cbn in Hq.
      * injection Hq as <-. rewrite (Hout _ Hp), lookup_insert_eq. by rewrite drop_0.
      * rewrite (Hnd Hdup i q Hq). f_equal. f_equal.
        rewrite reverse_take. fold d.
        destruct (Nat.le_gt_cases cpp (length d)) as [Hle|Hgt].
        -- replace (length d - (length d - cpp))%nat with cpp by lia.
           rewrite drop_drop. f_equal.
        -- rewrite (drop_ge (reverse d) (length d - (length d - cpp)))
             by (rewrite length_reverse; lia).
           rewrite (drop_ge (reverse d) (S i * cpp)) by (rewrite length_reverse; lia).
           by rewrite drop_nil.
Qed.


(** Field assignments and field reads, evaluated innermost first. *)
Ltac room_fields :=
  cbv [set_players set_gameState set_deck set_discardPile set_joker set_jokerCard
       set_currentTurnIndex set_turnExpiresAt set_hands set_winnerIndex
       roomId gameType maxPlayers practiceMode creatorUserId players gameState deck
       discardPile joker jokerCard currentTurnIndex turnExpiresAt hands winnerIndex
       createdAt obj redis].

Ltac room_fields_in H :=
  cbv [set_players set_gameState set_deck set_discardPile set_joker set_jokerCard
       set_currentTurnIndex set_turnExpiresAt set_hands set_winnerIndex
       roomId gameType maxPlayers practiceMode creatorUserId players gameState deck
       discardPile joker jokerCard currentTurnIndex turnExpiresAt hands winnerIndex
       createdAt obj redis] in H.

Section Dealing.
Variable shuffle : nat → list string → list string.
Hypothesis shuffle_permutes : ∀ seed l, shuffle seed l ≡ₚ l.

Lemma shuffled_deck_pops (seed : nat) :
  ∃ rest starter,
    shuffle seed (createDeck 2 true) = rest ++ [starter] ∧
    length rest = 105%nat ∧
    starter ∈ createDeck 2 true.
Proof.
  pose proof (shuffle_permutes seed (createDeck 2 true)) as Hp.
  destruct (nonempty_snoc (shuffle seed (createDeck 2 true))) as (rest & starter & E).
  { intros E. rewrite E in Hp. apply Permutation_nil_l in Hp. discriminate Hp. }
  exists rest, starter. split; [exact E |]. split.
  - apply Permutation_length in Hp.
    rewrite E, length_app, length_createDeck in Hp. cbn [length] in Hp. lia.
  - apply (elem_of_Permutation_proper starter _ _ Hp).
    rewrite E. apply elem_of_app. right. left.
Qed.


(** X13: the three outcomes of [startGame].  It succeeds exactly for a
    waiting room with at least two players and cards enough; it is refused
    with its reason for a room that is not waiting, or else for a room
    with fewer than two players; and for a waiting room whose players
    need more than the 106 cards it throws, leaving room and store as they
    were. *)
Theorem X13_startGame_outcomes (seed : nat) (e : Eng) :
  let n := length (players (obj e)) in
  let cpp := cardsPerPlayer_of (gameType (obj e)) in
  match startGame shuffle seed e with
  | (Ok _, _) =>
      gameState (obj e) = waiting ∧ (2 ≤ n)%nat ∧ (n * cpp + 1 ≤ 106)%nat
  | (NotOk reason, e') =>
      e' = e ∧
      (gameState (obj e) ≠ waiting ∧ reason = "Game already started" ∨
       gameState (obj e) = waiting ∧ (n < 2)%nat ∧ reason = "Need at least 2 players")
  | (Threw, e') =>
      e' = e ∧
      gameState (obj e) = waiting ∧ (2 ≤ n)%nat ∧ (106 < n * cpp + 1)%nat
  end.
Proof.
  intros n cpp. destruct e as [r st]. cbn [obj redis] in *.
  engine_unfold.
  destruct (GameState_eqb (gameState r) waiting) eqn:Hw; cbn [negb]; tests_to_props.
  2: { split; [done |]. by left. }
  destruct (Nat.ltb_spec (length (players r)) 2) as [Hn|Hn].
  { split; [done |]. right. by repeat split. }
  unfold getDecksForPlayers. rewrite length_createDeck. fold cpp. fold n.
  destruct (Nat.ltb_spec (52 * 2 + 2) (n * cpp + 1)) as [Hc|Hc].
  { repeat split; try done; lia. }
  cbn [obj redis].
  destruct (shuffled_deck_pops seed) as (rest & starter & Hsh & _ & _).
  rewrite Hsh, pop_snoc.
  match goal with |- context [deal_players cpp ?ps ?e1] =>
    destruct (@deal_players_spec unit cpp ps e1) as (H' & Hrun & _)
  end.
  rewrite Hrun. repeat split; try done; lia.
Qed.

End Dealing.


Lemma X13_startGame_outcomes_witness :
  let e := {| obj := Samples.lobby; redis := ∅ |} in
  let n := length (players (obj e)) in
  let cpp := cardsPerPlayer_of (gameType (obj e)) in
  match startGame Samples.keep_order 7 e with
  | (Ok _, _) =>
      gameState (obj e) = waiting ∧ (2 ≤ n)%nat ∧ (n * cpp + 1 ≤ 106)%nat
  | (NotOk reason, e') =>
      e' = e ∧
      (gameState (obj e) ≠ waiting ∧ reason = "Game already started" ∨
       gameState (obj e) = waiting ∧ (n < 2)%nat ∧ reason = "Need at least 2 players")
  | (Threw, e') =>
      e' = e ∧
      gameState (obj e) = waiting ∧ (2 ≤ n)%nat ∧ (106 < n * cpp + 1)%nat
  end.
Proof.
  exact (X13_startGame_outcomes Samples.keep_order (λ _ l, reflexivity l) 7
           {| obj := Samples.lobby; redis := ∅ |}).
Defined.

(** ** Picking and discarding (gameManager.js) *)

Lemma indexOf_from_first (i : Z) (card : string) (l1 l2 : list string) :
  card ∉ l1 →
  indexOf_from i card (l1 ++ card :: l2) = (i + Z.of_nat (length l1))%Z.
Proof.
  revert i. induction l1 as [|x l1 IH]; intros i Hout; cbn [app indexOf_from length].
  - rewrite String.eqb_refl. lia.
  - apply not_elem_of_cons in Hout as [Hx Hout].
    destruct (String.eqb_spec x card) as [->|_]; [done |].
    rewrite IH by done. lia.
Qed.

Section Picking.
Variable shuffle : nat → list string → list string.

Lemma pickCard_from_deck (seed : nat) (uid : string) (p : Player)
      (hand rest : list string) (card : string) (e : Eng) :
  gameState (obj e) = playing →
  current (obj e) = Some p →
  userId p = uid →
  hands (obj e) !! uid = Some hand →
  deck (obj e) = rest ++ [card] →
  pickCard shuffle seed uid "deck" e
  = (Ok (),
     {| obj := set_hands (<[uid := hand ++ [card]]> (hands (obj e)))
                 (set_deck rest (obj e));
        redis := <[roomId (obj e) :=
                     set_hands (<[uid := hand ++ [card]]> (hands (obj e)))
                       (set_deck rest (obj e))]> (redis e) |}).
Proof.
  intros Hplay Hcur Huid Hhand Hpile.
  destruct e as [[rid gt mp pm cu ps gs dk dp jk jc ti te hs wi ca] st].
  unfold current in Hcur. room_fields_in Hplay. room_fields_in Hcur.
  room_fields_in Hhand. room_fields_in Hpile. subst.
  engine_unfold. room_fields. rewrite Hcur, String.eqb_refl, Hhand.
  cbn [GameState_eqb negb]. rewrite length_app.
  cbn [length String.eqb Ascii.eqb Bool.eqb].
  replace (length rest + 1 =? 0)%nat with false by (symmetry; apply Nat.eqb_neq; lia).
  rewrite pop_snoc. room_fields. rewrite Hhand. reflexivity.
Qed.

Lemma pickCard_from_discard (seed : nat) (uid : string) (p : Player)
      (hand rest : list string) (card : string) (e : Eng) :
  gameState (obj e) = playing →
  current (obj e) = Some p →
  userId p = uid →
  hands (obj e) !! uid = Some hand →
  discardPile (obj e) = rest ++ [card] →
  pickCard shuffle seed uid "discard" e
  = (Ok (),
     {| obj := set_hands (<[uid := hand ++ [card]]> (hands (obj e)))
                 (set_discardPile rest (obj e));
        redis := <[roomId (obj e) :=
                     set_hands (<[uid := hand ++ [card]]> (hands (obj e)))
                       (set_discardPile rest (obj e))]> (redis e) |}).
Proof.
  intros Hplay Hcur Huid Hhand Hpile.
  destruct e as [[rid gt mp pm cu ps gs dk dp jk jc ti te hs wi ca] st].
  unfold current in Hcur. room_fields_in Hplay. room_fields_in Hcur.
  room_fields_in Hhand. room_fields_in Hpile. subst.
  engine_unfold. room_fields. rewrite Hcur, String.eqb_refl, Hhand.
  cbn [GameState_eqb negb]. rewrite length_app.
  cbn [length String.eqb Ascii.eqb Bool.eqb].
  replace (length rest + 1 =? 0)%nat with false by (symmetry; apply Nat.eqb_neq; lia).
  rewrite pop_snoc. room_fields. rewrite Hhand. reflexivity.
Qed.

(** X14: the player whose turn it is takes the top card of a pile that
    has one: the last card of the draw pile, or the last card of the
    discard pile, is appended to that player's hand and removed from its
    pile.  Nothing else of the room changes (the turn stays with the
    player), and the room is saved. *)
Theorem X14_pickCard_takes_top (seed : nat) (uid : string) (p : Player)
        (hand : list string) (e : Eng) :
  gameState (obj e) = playing →
  current (obj e) = Some p →
  userId p = uid →
  hands (obj e) !! uid = Some hand →
  (∀ rest card,
     deck (obj e) = rest ++ [card] →
     pickCard shuffle seed uid "deck" e
     = (Ok (),
        {| obj := set_hands (<[uid := hand ++ [card]]> (hands (obj e)))
                    (set_deck rest (obj e));
           redis := <[roomId (obj e) :=
                        set_hands (<[uid := hand ++ [card]]> (hands (obj e)))
                          (set_deck rest (obj e))]> (redis e) |})) ∧
  (∀ rest card,
     discardPile (obj e) = rest ++ [card] →
     pickCard shuffle seed uid "discard" e
     = (Ok (),
        {| obj := set_hands (<[uid := hand ++ [card]]> (hands (obj e)))
                    (set_discardPile rest (obj e));
           redis := <[roomId (obj e) :=
                        set_hands (<[uid := hand ++ [card]]> (hands (obj e)))
                          (set_discardPile rest (obj e))]> (redis e) |})).
Proof.
  intros Hplay Hcur Huid Hhand. split; intros rest card Hpile.
  - by apply (pickCard_from_deck seed uid p).
  - by apply (pickCard_from_discard seed uid p).
Qed.

(** X15: a pick does not end the turn and is not counted: the same
    player can draw again at once, and after two draws holds the two top
    cards of the draw pile in the order drawn. *)
Theorem X15_pickCard_can_repeat (seed seed' : nat) (uid : string) (p : Player)
        (hand rest : list string) (first second : string) (e : Eng) :
  gameState (obj e) = playing →
  current (obj e) = Some p →
  userId p = uid →
  hands (obj e) !! uid = Some hand →
  deck (obj e) = rest ++ [second; first] →
  ∃ e1 e2,
    pickCard shuffle seed uid "deck" e = (Ok (), e1) ∧
    pickCard shuffle seed' uid "deck" e1 = (Ok (), e2) ∧
    hands (obj e2) = <[uid := hand ++ [first; second]]> (hands (obj e)) ∧
    deck (obj e2) = rest ∧
    discardPile (obj e2) = discardPile (obj e) ∧
    current (obj e2) = Some p.
Proof.
  intros Hplay Hcur Huid Hhand Hdeck.
  eexists _, _. split.
  { apply (pickCard_from_deck seed uid p hand (rest ++ [second]) first); try done.
    by rewrite Hdeck, <- app_assoc. }
  split.
  { apply (pickCard_from_deck seed' uid p (hand ++ [first]) rest second).
    - by destruct e as [[]].
    - by destruct e as [[]].
    - done.
    - destruct e as [[]]. room_fields. apply lookup_insert_eq.
    - by destruct e as [[]]. }
  destruct e as [[]]. room_fields. repeat split; try done.
  by rewrite insert_insert_eq, <- app_assoc.
Qed.

End Picking.

Lemma discardCard_first_copy (now : Z) (uid : string) (p : Player)
      (l1 l2 : list string) (card : string) (e : Eng) :
  gameState (obj e) = playing →
  current (obj e) = Some p →
  userId p = uid →
  hands (obj e) !! uid = Some (l1 ++ card :: l2) →
  card ∉ l1 →
  discardCard now uid card e
  = (Ok (),
     {| obj := set_turnExpiresAt (Some (now + 30 * 1000)%Z)
                 (set_currentTurnIndex
                    ((currentTurnIndex (obj e) + 1) mod length (players (obj e)))
                    (set_discardPile (discardPile (obj e) ++ [card])
                       (set_hands (<[uid := l1 ++ l2]> (hands (obj e))) (obj e))));
        redis := <[roomId (obj e) :=
                     set_turnExpiresAt (Some (now + 30 * 1000)%Z)
                       (set_currentTurnIndex
                          ((currentTurnIndex (obj e) + 1) mod length (players (obj e)))
                          (set_discardPile (discardPile (obj e) ++ [card])
                             (set_hands (<[uid := l1 ++ l2]> (hands (obj e))) (obj e))))]>
                   (redis e) |}).
Proof.
  intros Hplay Hcur Huid Hhand Hfirst.
  destruct e as [[rid gt mp pm cu ps gs dk dp jk jc ti te hs wi ca] st].
  unfold current in Hcur. room_fields_in Hplay. room_fields_in Hcur.
  room_fields_in Hhand. subst.
  engine_unfold. room_fields. rewrite Hcur, String.eqb_refl, Hhand.
  cbn [GameState_eqb negb]. unfold indexOf.
  rewrite (indexOf_from_first 0 card l1 l2 Hfirst).
  destruct (Z.eqb_spec (0 + Z.of_nat (length l1)) (-1)) as [?|_]; [lia |].
  replace (Z.to_nat (0 + Z.of_nat (length l1))) with (length l1) by lia.
  rewrite delete_middle. room_fields. reflexivity.
Qed.

(** X16: the player whose turn it is discards a card of the hand: the
    first copy of the token leaves the hand, the card goes on top of the
    discard pile, the turn passes to the next seat and a new deadline is
    set; whether the player picked a card before is not asked.  A token
    that is not in the hand is refused and nothing changes. *)
Theorem X16_discardCard_moves_first_copy (now : Z) (uid : string) (p : Player)
        (hand : list string) (card : string) (e : Eng) :
  gameState (obj e) = playing →
  current (obj e) = Some p →
  userId p = uid →
  hands (obj e) !! uid = Some hand →
  (card ∉ hand → discardCard now uid card e = (NotOk "Card not in hand", e)) ∧
  (∀ l1 l2,
     hand = l1 ++ card :: l2 → card ∉ l1 →
     discardCard now uid card e
     = (Ok (),
        {| obj := set_turnExpiresAt (Some (now + 30 * 1000)%Z)
                    (set_currentTurnIndex
                       ((currentTurnIndex (obj e) + 1) mod length (players (obj e)))
                       (set_discardPile (discardPile (obj e) ++ [card])
                          (set_hands (<[uid := l1 ++ l2]> (hands (obj e))) (obj e))));
           redis := <[roomId (obj e) :=
                        set_turnExpiresAt (Some (now + 30 * 1000)%Z)
                          (set_currentTurnIndex
                             ((currentTurnIndex (obj e) + 1) mod length (players (obj e)))
                             (set_discardPile (discardPile (obj e) ++ [card])
                                (set_hands (<[uid := l1 ++ l2]> (hands (obj e)))
                                   (obj e))))]>
                      (redis e) |})).
Proof.
  intros Hplay Hcur Huid Hhand. split.
  - intros Hout. destruct e as [r st]. cbn [obj redis] in *. unfold current in Hcur.
    engine_unfold. rewrite Hplay, Hcur, Huid, String.eqb_refl, Hhand.
    cbn [GameState_eqb negb].
    apply indexOf_absent in Hout. by rewrite Hout.
  - intros l1 l2 -> Hfirst. by apply (discardCard_first_copy now uid p).
Qed.

(** X17: a discard followed by the next player's pick from the discard
    pile hands that very card over: the discard pile and the draw pile are
    as before the two moves, the card has left the first hand and is the
    last card of the second. *)
Theorem X17_discard_then_pick_passes_card
        (shuffle : nat → list string → list string) (now : Z) (seed : nat)
        (p q : Player) (l1 l2 hq : list string) (card : string) (e : Eng) :
  gameState (obj e) = playing →
  current (obj e) = Some p →
  players (obj e) !! ((currentTurnIndex (obj e) + 1) mod length (players (obj e)))
    = Some q →
  userId q ≠ userId p →
  hands (obj e) !! userId p = Some (l1 ++ card :: l2) →
  card ∉ l1 →
  hands (obj e) !! userId q = Some hq →
  ∃ e1 e2,
    discardCard now (userId p) card e = (Ok (), e1) ∧
    pickCard shuffle seed (userId q) "discard" e1 = (Ok (), e2) ∧
    discardPile (obj e2) = discardPile (obj e) ∧
    deck (obj e2) = deck (obj e) ∧
    hands (obj e2)
    = <[userId q := hq ++ [card]]> (<[userId p := l1 ++ l2]> (hands (obj e))) ∧
    current (obj e2) = Some q.
Proof.
  intros Hplay Hcur Hnext Hne Hhand Hfirst Hq.
  destruct e as [[rid gt mp pm cu ps gs dk dp jk jc ti te hs wi ca] st].
  eexists _, _. split.
  { by apply (discardCard_first_copy now (userId p) p l1 l2 card). }
  unfold current in *. room_fields_in Hplay. room_fields_in Hcur. room_fields_in Hnext.
  room_fields_in Hhand. room_fields_in Hq. subst gs. room_fields.
  split.
  { apply (pickCard_from_discard shuffle seed (userId q) q hq dp card).
    - reflexivity.
    - exact Hnext.
    - reflexivity.
    - room_fields. by rewrite lookup_insert_ne.
    - reflexivity. }
  room_fields. by repeat split.
Qed.

Lemma X14_pickCard_takes_top_witness :
  let e := {| obj := Samples.early_room Samples.ann Samples.bob; redis := ∅ |} in
  let hand := take 13 (createDeck 2 true) in
  (∀ rest card,
     deck (obj e) = rest ++ [card] →
     pickCard Samples.keep_order 0 "ann" "deck" e
     = (Ok (),
        {| obj := set_hands (<["ann" := hand ++ [card]]> (hands (obj e)))
                    (set_deck rest (obj e));
           redis := <[roomId (obj e) :=
                        set_hands (<["ann" := hand ++ [card]]> (hands (obj e)))
                          (set_deck rest (obj e))]> (redis e) |})) ∧
  (∀ rest card,
     discardPile (obj e) = rest ++ [card] →
     pickCard Samples.keep_order 0 "ann" "discard" e
     = (Ok (),
        {| obj := set_hands (<["ann" := hand ++ [card]]> (hands (obj e)))
                    (set_discardPile rest (obj e));
           redis := <[roomId (obj e) :=
                        set_hands (<["ann" := hand ++ [card]]> (hands (obj e)))
                          (set_discardPile rest (obj e))]> (redis e) |})).
Proof.
  apply (X14_pickCard_takes_top Samples.keep_order 0 "ann" Samples.ann
           (take 13 (createDeck 2 true))
           {| obj := Samples.early_room Samples.ann Samples.bob; redis := ∅ |}).
  - reflexivity.
  - reflexivity.
  - reflexivity.
  - vm_compute. reflexivity.
Defined.

Lemma X15_pickCard_can_repeat_witness :
  let e := {| obj := Samples.early_room Samples.ann Samples.bob; redis := ∅ |} in
  ∃ e1 e2,
    pickCard Samples.keep_order 0 "ann" "deck" e = (Ok (), e1) ∧
    pickCard Samples.keep_order 1 "ann" "deck" e1 = (Ok (), e2) ∧
    hands (obj e2)
    = <["ann" := take 13 (createDeck 2 true) ++ ["JOKER"; "JOKER"]]> (hands (obj e)) ∧
    deck (obj e2) = take 77 (drop 27 (createDeck 2 true)) ∧
    discardPile (obj e2) = discardPile (obj e) ∧
    current (obj e2) = Some Samples.ann.
Proof.
  apply (X15_pickCard_can_repeat Samples.keep_order 0 1 "ann" Samples.ann
           (take 13 (createDeck 2 true)) (take 77 (drop 27 (createDeck 2 true)))
           "JOKER" "JOKER"
           {| obj := Samples.early_room Samples.ann Samples.bob; redis := ∅ |}).
  - reflexivity.
  - reflexivity.
  - reflexivity.
  - vm_compute. reflexivity.
  - vm_compute. reflexivity.
Defined.

Lemma X16_discardCard_moves_first_copy_witness :
  let e := {| obj := Samples.late_humans; redis := ∅ |} in
  ("3-H" ∉ take 13 (createDeck 2 true) →
   discardCard 1000 "ann" "3-H" e = (NotOk "Card not in hand", e)) ∧
  (∀ l1 l2,
     take 13 (createDeck 2 true) = l1 ++ "3-H" :: l2 → "3-H" ∉ l1 →
     discardCard 1000 "ann" "3-H" e
     = (Ok (),
        {| obj := set_turnExpiresAt (Some (1000 + 30 * 1000)%Z)
                    (set_currentTurnIndex
                       ((currentTurnIndex (obj e) + 1) mod length (players (obj e)))
                       (set_discardPile (discardPile (obj e) ++ ["3-H"])
                          (set_hands (<["ann" := l1 ++ l2]> (hands (obj e))) (obj e))));
           redis := <[roomId (obj e) :=
                        set_turnExpiresAt (Some (1000 + 30 * 1000)%Z)
                          (set_currentTurnIndex
                             ((currentTurnIndex (obj e) + 1) mod length (players (obj e)))
                             (set_discardPile (discardPile (obj e) ++ ["3-H"])
                                (set_hands (<["ann" := l1 ++ l2]> (hands (obj e)))
                                   (obj e))))]>
                      (redis e) |})).
Proof.
  apply (X16_discardCard_moves_first_copy 1000 "ann" Samples.ann
           (take 13 (createDeck 2 true)) "3-H"
           {| obj := Samples.late_humans; redis := ∅ |}).
  - reflexivity.
  - reflexivity.
  - reflexivity.
  - vm_compute. reflexivity.
Defined.

Lemma X17_discard_then_pick_passes_card_witness :
  let e := {| obj := Samples.late_humans; redis := ∅ |} in
  ∃ e1 e2,
    discardCard 1000 "ann" "3-H" e = (Ok (), e1) ∧
    pickCard Samples.keep_order 0 "bob" "discard" e1 = (Ok (), e2) ∧
    discardPile (obj e2) = discardPile (obj e) ∧
    deck (obj e2) = deck (obj e) ∧
    hands (obj e2)
    = <["bob" := take 13 (drop 13 (createDeck 2 true)) ++ ["3-H"]]>
        (<["ann" := ["A-H"; "2-H"] ++ drop 3 (take 13 (createDeck 2 true))]>
           (hands (obj e))) ∧
    current (obj e2) = Some Samples.bob.
Proof.
  apply (X17_discard_then_pick_passes_card Samples.keep_order 1000 0
           Samples.ann Samples.bob ["A-H"; "2-H"] (drop 3 (take 13 (createDeck 2 true)))
           (take 13 (drop 13 (createDeck 2 true))) "3-H"
           {| obj := Samples.late_humans; redis := ∅ |}).
  - reflexivity.
  - reflexivity.
  - reflexivity.
  - discriminate.
  - vm_compute. reflexivity.
  - apply (bool_decide_unpack _). vm_compute. reflexivity.
  - vm_compute. reflexivity.
Defined.

(** ** Declaring (gameManager.js, [declare]) *)




(** ** The phases of a game and what a move leaves alone *)

Ltac table_goal :=
  unfold same_table, current; room_fields;
  repeat split; try done; try (by left); try (by right);
  try (by tests_to_props; subst);
  try (intros uid0 Hother; tests_to_props; subst;
       rewrite ?lookup_insert_ne; try done;
       intros <-; by eapply Hother).

Lemma pickCard_table (shuffle : nat → list string → list string)
      (seed : nat) (uid source : string) (e : Eng) :
  let '(x, e') := pickCard shuffle seed uid source e in
  same_table (obj e) (obj e') ∧
  gameState (obj e') = gameState (obj e) ∧
  (redis e' = redis e ∨ redis e' = <[roomId (obj e) := obj e']> (redis e)) ∧
  (gameState (obj e) ≠ playing → succeeded x = false ∧ e' = e).
Proof.
  destruct e as [[rid gt mp pm cu ps gs dk dp jk jc ti te hs wi ca] st].
  engine_unfold. room_fields.
  repeat case_match; simplify_eq; table_goal.
Qed.

Lemma discardCard_table (now : Z) (uid card : string) (e : Eng) :
  let '(x, e') := discardCard now uid card e in
  same_table (obj e) (obj e') ∧
  gameState (obj e') = gameState (obj e) ∧
  (redis e' = redis e ∨ redis e' = <[roomId (obj e) := obj e']> (redis e)) ∧
  (gameState (obj e) ≠ playing → succeeded x = false ∧ e' = e).
Proof.
  destruct e as [[rid gt mp pm cu ps gs dk dp jk jc ti te hs wi ca] st].
  engine_unfold. room_fields.
  repeat case_match; simplify_eq; table_goal.
Qed.

Lemma declare_table (uid : string) (cards : list string)
      (groupedCards : option (list group)) (e : Eng) :
  let '(x, e') := declare uid cards groupedCards e in
  same_table (obj e) (obj e') ∧
  (if succeeded x then gameState (obj e) = playing ∧ gameState (obj e') = ended
   else e' = e) ∧
  (redis e' = redis e ∨ redis e' = <[roomId (obj e) := obj e']> (redis e)).
Proof.
  destruct e as [[rid gt mp pm cu ps gs dk dp jk jc ti te hs wi ca] st].
  engine_unfold. room_fields.
  repeat case_match; simplify_eq; tests_to_props; table_goal.
Qed.

Lemma botPlay_table (now : Z) (rnd : nat) (e : Eng) :
  let '(x, e') := botPlay now rnd e in
  same_table (obj e) (obj e') ∧
  gameState (obj e') = gameState (obj e) ∧
  (redis e' = redis e ∨ redis e' = <[roomId (obj e) := obj e']> (redis e)).
Proof.
  destruct e as [[rid gt mp pm cu ps gs dk dp jk jc ti te hs wi ca] st].
  engine_unfold. room_fields.
  repeat case_match; simplify_eq; room_fields; table_goal.
Qed.

Lemma same_table_refl (r : Room) : same_table r r.
Proof. by repeat split. Qed.

Section Phases.
Variable shuffle : nat → list string → list string.
Hypothesis shuffle_permutes : ∀ seed l, shuffle seed l ≡ₚ l.

Lemma startGame_outcome_state (seed : nat) (e : Eng) :
  match startGame shuffle seed e with
  | (Ok _, e') => gameState (obj e) = waiting ∧ gameState (obj e') = playing
  | (_, e') => e' = e
  end.
Proof.
  destruct e as [r st]. engine_unfold.
  destruct (GameState_eqb (gameState r) waiting) eqn:Hw; cbn [negb]; [|done].
  tests_to_props.
  destruct (length (players r) <? 2)%nat; [done |].
  destruct (getDecksForPlayers _ _ 2 true) as [fresh|] eqn:Hfresh; [|done].
  apply getDecksForPlayers_full in Hfresh as ->. cbn [obj redis].
  destruct (shuffled_deck_pops shuffle shuffle_permutes seed)
    as (rest & starter & Hsh & _ & _).
  rewrite Hsh, pop_snoc.
  match goal with |- context [deal_players ?cpp ?ps ?e1] =>
    destruct (@deal_players_spec unit cpp ps e1) as (H' & Hrun & _)
  end.
  rewrite Hrun. split; [done |]. destruct r. reflexivity.
Qed.

(** X19: the life of a room.  A waiting room is changed by a successful
    start only, which makes it a playing room; a playing room stays
    playing under every move except an accepted declaration, which ends
    it, and a start is refused there; an ended room is final: every move
    is refused or skipped and leaves room and store as they were. *)
Theorem X19_game_phases (a : action) (e : Eng) :
  let '(ok, e') := perform shuffle a e in
  match gameState (obj e) with
  | waiting =>
      match a with
      | a_start _ _ => if ok then gameState (obj e') = playing else e' = e
      | _ => ok = false ∧ e' = e
      end
  | playing =>
      match a with
      | a_start _ _ => ok = false ∧ e' = e
      | a_declare _ _ _ => if ok then gameState (obj e') = ended else e' = e
      | _ => gameState (obj e') = playing
      end
  | ended => ok = false ∧ e' = e
  end.
Proof.
  destruct a as [seed now|seed uid source|now uid card|uid cards g|now rnd|now];
    cbn [perform].
  - pose proof (startGame_outcome_state seed e) as H.
    destruct (startGame shuffle seed e) as [[[]|reason|] e'].
    + destruct H as [-> H]. destruct e' as [[]]. exact H.
    + subst e'. by destruct (gameState (obj e)).
    + subst e'. by destruct (gameState (obj e)).
  - pose proof (pickCard_table shuffle seed uid source e) as H.
    destruct (pickCard shuffle seed uid source e) as [x e'].
    destruct H as (_ & Hgs & _ & Hno). rewrite Hgs.
    destruct (gameState (obj e)); [by apply Hno | done | by apply Hno].
  - pose proof (discardCard_table now uid card e) as H.
    destruct (discardCard now uid card e) as [x e'].
    destruct H as (_ & Hgs & _ & Hno). rewrite Hgs.
    destruct (gameState (obj e)); [by apply Hno | done | by apply Hno].
  - pose proof (declare_table uid cards g e) as H.
    destruct (declare uid cards g e) as [x e'].
    destruct H as (_ & Hgs & _).
    destruct (succeeded x); [by destruct Hgs as [-> ->] |].
    subst e'. by destruct (gameState (obj e)).
  - destruct (gameState (obj e)) eqn:Hgs; cbn [GameState_eqb]; try done.
    destruct (current (obj e)) as [p|]; [|done].
    destruct (isBot p); [|done].
    pose proof (botPlay_table now rnd e) as H.
    destruct (botPlay now rnd e) as [x e'].
    destruct H as (_ & Hgs' & _). congruence.
  - destruct (gameState (obj e)) eqn:Hgs; cbn [GameState_eqb]; try done.
    destruct (current (obj e)) as [p|]; [|done].
    destruct (isBot p); [done |].
    destruct (hands (obj e) !! userId p) as [[|first rest]|]; try done.
    pose proof (discardCard_table now (userId p) first e) as H.
    destruct (discardCard now (userId p) first e) as [x e'].
    destruct H as (_ & Hgs' & _). congruence.
Qed.

End Phases.

(** X20: in a room that has left the waiting phase no move touches the
    room code, the game settings, the seats, the joker, or the hand of a
    player whose turn it is not; and the only entry of the store a move
    may write is the room's own. *)
Theorem X20_moves_keep_the_table (shuffle : nat → list string → list string)
        (a : action) (e : Eng) :
  gameState (obj e) ≠ waiting →
  let '(_, e') := perform shuffle a e in
  same_table (obj e) (obj e') ∧
  (redis e' = redis e ∨ redis e' = <[roomId (obj e) := obj e']> (redis e)).
Proof.
  intros Hstarted.
  destruct a as [seed now|seed uid source|now uid card|uid cards g|now rnd|now];
    cbn [perform].
  - destruct e as [r st]. cbn [obj] in Hstarted. apply GameState_eqb_neq in Hstarted.
    engine_unfold. rewrite Hstarted. cbn [negb]. split; [apply same_table_refl | by left].
  - pose proof (pickCard_table shuffle seed uid source e) as H.
    destruct (pickCard shuffle seed uid source e) as [x e']. by destruct H as (? & _ & ? & _).
  - pose proof (discardCard_table now uid card e) as H.
    destruct (discardCard now uid card e) as [x e']. by destruct H as (? & _ & ? & _).
  - pose proof (declare_table uid cards g e) as H.
    destruct (declare uid cards g e) as [x e']. by destruct H as (? & _ & ?).
  - destruct (GameState_eqb _ _); [|split; [apply same_table_refl | by left]].
    destruct (current (obj e)) as [p|]; [|split; [apply same_table_refl | by left]].
    destruct (isBot p); [|split; [apply same_table_refl | by left]].
    pose proof (botPlay_table now rnd e) as H.
    destruct (botPlay now rnd e) as [x e']. by destruct H as (? & _ & ?).
  - destruct (GameState_eqb _ _); [|split; [apply same_table_refl | by left]].
    destruct (current (obj e)) as [p|]; [|split; [apply same_table_refl | by left]].
    destruct (isBot p); [split; [apply same_table_refl | by left] |].
    destruct (hands (obj e) !! userId p) as [[|first rest]|];
      try (split; [apply same_table_refl | by left]).
    pose proof (discardCard_table now (userId p) first e) as H.
    destruct (discardCard now (userId p) first e) as [x e']. by destruct H as (? & _ & ? & _).
Qed.

Lemma X19_game_phases_witness :
  let a := a_discard 1000 "ann" "3-H" in
  let e := {| obj := Samples.late_humans; redis := ∅ |} in
  let '(ok, e') := perform Samples.keep_order a e in
  match gameState (obj e) with
  | waiting =>
      match a with
      | a_start _ _ => if ok then gameState (obj e') = playing else e' = e
      | _ => ok = false ∧ e' = e
      end
  | playing =>
      match a with
      | a_start _ _ => ok = false ∧ e' = e
      | a_declare _ _ _ => if ok then gameState (obj e') = ended else e' = e
      | _ => gameState (obj e') = playing
      end
  | ended => ok = false ∧ e' = e
  end.
Proof.
  exact (X19_game_phases Samples.keep_order (λ _ l, reflexivity l)
           (a_discard 1000 "ann" "3-H") {| obj := Samples.late_humans; redis := ∅ |}).
Defined.

Lemma X20_moves_keep_the_table_witness :
  let e := {| obj := Samples.late_humans; redis := ∅ |} in
  let '(_, e') := perform Samples.keep_order (a_discard 1000 "ann" "3-H") e in
  same_table (obj e) (obj e') ∧
  (redis e' = redis e ∨ redis e' = <[roomId (obj e) := obj e']> (redis e)).
Proof.
  apply (X20_moves_keep_the_table Samples.keep_order (a_discard 1000 "ann" "3-H")
           {| obj := Samples.late_humans; redis := ∅ |}).
  discriminate.
Defined.

(** ** The deadwood of a hand (validator.js, [calculateDeadwood]) *)

(** X9: the deadwood is the hand with cards struck out, in hand order;
    it can be taken hand part by hand part, and group list by group list;
    and, unlike the penalty of scoring.js, it does not depend on whether a
    group is given as a bare array or as an object with a [cards] field. *)
Theorem X9_calculateDeadwood_structure (cards more : list string)
        (groups others : list group) :
  calculateDeadwood cards groups `sublist_of` cards ∧
  calculateDeadwood (cards ++ more) groups
  = calculateDeadwood cards groups ++ calculateDeadwood more groups ∧
  calculateDeadwood cards (groups ++ others)
  = calculateDeadwood (calculateDeadwood cards groups) others ∧
  calculateDeadwood cards (map (λ g, GroupArr (groupCards g)) groups)
  = calculateDeadwood cards groups ∧
  calculateDeadwood cards (map (λ g, GroupObj (groupCards g)) groups)
  = calculateDeadwood cards groups.
Proof.
  unfold calculateDeadwood. split; [apply sublist_filter |].
  split; [apply filter_app |].
  split; [|split].
  - rewrite list_filter_filter. apply list_filter_iff. intros c.
    rewrite !validator_grouped_spec. split.
    + intros Hno. split; intros (g & Hg & Hc); apply Hno; exists g;
        (split; [apply elem_of_app; auto | done]).
    + intros [H1 H2] (g & Hg & Hc). apply elem_of_app in Hg as [Hg|Hg].
      * apply H2. by exists g.
      * apply H1. by exists g.
  - apply list_filter_iff. intros c. rewrite !validator_grouped_spec.
    split; intros Hno (g & Hg & Hc); apply Hno.
    + exists (GroupArr (groupCards g)). split; [|done].
      apply list_elem_of_fmap. by exists g.
    + apply list_elem_of_fmap in Hg as (g' & -> & Hg'). by exists g'.
  - apply list_filter_iff. intros c. rewrite !validator_grouped_spec.
    split; intros Hno (g & Hg & Hc); apply Hno.
    + exists (GroupObj (groupCards g)). split; [|done].
      apply list_elem_of_fmap. by exists g.
    + apply list_elem_of_fmap in Hg as (g' & -> & Hg'). by exists g'.
Qed.

(** ** The turn timer (socket handlers) *)

Lemma clearTurnTimer_spec (rid : string) (w : World) :
  clearTurnTimer rid w
  = {| store := store w; turnTimers := delete rid (turnTimers w); outbox := outbox w |}.
Proof.
  unfold clearTurnTimer. destruct (turnTimers w !! rid) eqn:Hτ; [done |].
  rewrite delete_id by done. by destruct w.
Qed.

(** X21: [startTurnTimer] touches the timer of its own room only, and
    neither the store nor the events.  Afterwards the room has a timer
    exactly when its deadline is set, is not zero and lies in the future,
    and the delay is then the time left; a timer that was pending for the
    room is gone in every case. *)
Theorem X21_startTurnTimer_one_timer (room : Room) (now : Z) (w : World) :
  let w' := startTurnTimer room now w in
  store w' = store w ∧
  outbox w' = outbox w ∧
  (∀ rid, rid ≠ roomId room → turnTimers w' !! rid = turnTimers w !! rid) ∧
  turnTimers w' !! roomId room
  = match turnExpiresAt room with
    | Some t => if (t =? 0)%Z || (t <=? now)%Z then None else Some (t - now)%Z
    | None => None
    end ∧
  (∀ rid delay, turnTimers w !! rid = None → turnTimers w' !! rid = Some delay →
                rid = roomId room ∧ (0 < delay)%Z).
Proof.
  cbn zeta. unfold startTurnTimer. rewrite clearTurnTimer_spec. cbn [store turnTimers outbox].
  assert (Hcases :
    ∀ tt, (tt = delete (roomId room) (turnTimers w) ∨
           ∃ d, (0 < d)%Z ∧ tt = <[roomId room := d]> (delete (roomId room) (turnTimers w))) →
          (∀ rid, rid ≠ roomId room → tt !! rid = turnTimers w !! rid) ∧
          (∀ rid delay, turnTimers w !! rid = None → tt !! rid = Some delay →
                        rid = roomId room ∧ (0 < delay)%Z)).
  { intros tt [->|(d & Hd & ->)]; split.
    - intros rid Hne. by apply lookup_delete_ne.
    - intros rid delay Hnone Hsome.
      destruct (decide (rid = roomId room)) as [->|Hne].
      + by rewrite lookup_delete_eq in Hsome.
      + rewrite lookup_delete_ne in Hsome by done. congruence.
    - intros rid Hne. rewrite lookup_insert_ne by done. by apply lookup_delete_ne.
    - intros rid delay Hnone Hsome.
      destruct (decide (rid = roomId room)) as [->|Hne].
      + rewrite lookup_insert_eq in Hsome. by injection Hsome as <-.
      + rewrite lookup_insert_ne, lookup_delete_ne in Hsome by done. congruence. }
  destruct (turnExpiresAt room) as [t|]; cbn [store turnTimers outbox].
  2: { destruct (Hcases _ (or_introl eq_refl)) as [H1 H2].
       do 2 (split; [done |]). split; [exact H1 |]. split; [|exact H2]. apply lookup_delete_eq. }
  destruct (Z.eqb_spec t 0) as [->|Ht]; cbn [orb store turnTimers outbox].
  { destruct (Hcases _ (or_introl eq_refl)) as [H1 H2].
    do 2 (split; [done |]). split; [exact H1 |]. split; [|exact H2]. apply lookup_delete_eq. }
  destruct (Z.leb_spec (t - now) 0) as [Hpast|Hfuture]; cbn [store turnTimers outbox].
  - destruct (Hcases _ (or_introl eq_refl)) as [H1 H2].
    do 2 (split; [done |]). split; [exact H1 |]. split; [|exact H2]. rewrite lookup_delete_eq.
    by destruct (Z.leb_spec t now); [|lia].
  - destruct (Hcases (<[roomId room := (t - now)%Z]> (delete (roomId room) (turnTimers w))))
      as [H1 H2].
    { right. by exists (t - now)%Z. }
    do 2 (split; [done |]). split; [exact H1 |]. split; [|exact H2]. rewrite lookup_insert_eq.
    by destruct (Z.leb_spec t now); [lia |].
Qed.

(** X22: when the timer of a room fires on a human player's turn, an
    auto-play notice is sent and, if the hand has a card, its first card
    is discarded for the player: the room with the card moved, the turn
    passed on and a new deadline is stored, the new turn and the deadline
    are announced, and the timer is set again for the time left (or not at
    all if the deadline has passed or is zero).  With an empty hand or
    none, only the notice is sent: the turn does not pass and no timer is
    set again. *)
Theorem X22_turnExpired_auto_play (rid : string) (now now' : Z) (rnd : nat)
        (w : World) (r : Room) (p : Player) (hand : option (list string)) :
  store w !! rid = Some r →
  roomId r = rid →
  gameState r = playing →
  current r = Some p →
  isBot p = false →
  hands r !! userId p = hand →
  match hand with
  | Some (first :: rest) =>
      let t := (now + 30 * 1000)%Z in
      let r' := set_turnExpiresAt (Some t)
                  (set_currentTurnIndex
                     ((currentTurnIndex r + 1) mod length (players r))
                     (set_discardPile (discardPile r ++ [first])
                        (set_hands (<[userId p := rest]> (hands r)) r))) in
      turnExpired rid now now' rnd w
      = {| store := <[rid := r']> (store w);
           turnTimers := if (t =? 0)%Z || (t <=? now')%Z
                         then delete rid (turnTimers w)
                         else <[rid := (t - now')%Z]> (turnTimers w);
           outbox := outbox w ++
                     [turn_auto_play rid;
                      player_turn rid ((currentTurnIndex r + 1) mod length (players r))
                                  (discardPile r ++ [first]);
                      turn_timer_start rid (Some t)] |}
  | _ => turnExpired rid now now' rnd w = emit [turn_auto_play rid] w
  end.
Proof.
  intros Hstore Hrid Hplay Hcur Hbot Hhand.
  unfold turnExpired. rewrite Hstore, Hplay. cbn [GameState_eqb negb].
  unfold current in Hcur. rewrite Hcur, Hbot, Hhand.
  destruct hand as [[|first rest]|]; [done | |done].
  rewrite (discardCard_first_copy now (userId p) p [] rest first
             {| obj := r; redis := store w |} Hplay Hcur eq_refl Hhand)
    by apply not_elem_of_nil.
  cbn [obj redis app].
  unfold startTurnTimer. rewrite clearTurnTimer_spec.
  destruct r as [rid0 gt mp pm cu ps gs dk dp jk jc ti te hs wi ca].
  room_fields_in Hrid. subst rid0. room_fields. unfold emit. cbn [store turnTimers outbox].
  destruct (Z.eqb_spec (now + 30 * 1000) 0) as [E0|N0]; cbn [orb].
  { by rewrite <- app_assoc. }
  destruct (Z.leb_spec (now + 30 * 1000 - now') 0);
    destruct (Z.leb_spec (now + 30 * 1000) now'); try lia; cbn [store turnTimers outbox].
  - by rewrite <- app_assoc.
  - by rewrite insert_delete_eq, <- app_assoc.
Qed.

Lemma X22_turnExpired_auto_play_witness :
  let w := Samples.world_of Samples.late_humans in
  let r := Samples.late_humans in
  let p := Samples.ann in
  let first := "A-H" in
  let rest := drop 1 (take 13 (createDeck 2 true)) in
  let t := (5000 + 30 * 1000)%Z in
  let r' := set_turnExpiresAt (Some t)
              (set_currentTurnIndex
                 ((currentTurnIndex r + 1) mod length (players r))
                 (set_discardPile (discardPile r ++ [first])
                    (set_hands (<[userId p := rest]> (hands r)) r))) in
  turnExpired "ROOM01" 5000 5001 0 w
  = {| store := <["ROOM01" := r']> (store w);
       turnTimers := if (t =? 0)%Z || (t <=? 5001)%Z
                     then delete "ROOM01" (turnTimers w)
                     else <["ROOM01" := (t - 5001)%Z]> (turnTimers w);
       outbox := outbox w ++
                 [turn_auto_play "ROOM01";
                  player_turn "ROOM01" ((currentTurnIndex r + 1) mod length (players r))
                              (discardPile r ++ [first]);
                  turn_timer_start "ROOM01" (Some t)] |}.
Proof.
  apply (X22_turnExpired_auto_play "ROOM01" 5000 5001 0
           (Samples.world_of Samples.late_humans) Samples.late_humans Samples.ann
           (Some ("A-H" :: drop 1 (take 13 (createDeck 2 true))))).
  - vm_compute. reflexivity.
  - reflexivity.
  - reflexivity.
  - reflexivity.
  - reflexivity.
  - vm_compute. reflexivity.
Defined.

(** ** Ratings (elo.js) *)

Lemma Rpower_10_pos (x : R) : (0 < Rpower 10 x)%R.
Proof. unfold Rpower. apply exp_pos. Qed.

Lemma expectedScore_range (a b : Z) : (0 < Elo.expectedScore a b < 1)%R.
Proof.
  unfold Elo.expectedScore.
  pose proof (Rpower_10_pos ((IZR b - IZR a) / 400)) as HP.
  set (P := Rpower 10 ((IZR b - IZR a) / 400)) in *.
  assert (H1 : (0 < 1 + P)%R) by lra.
  split.
  - apply Rdiv_lt_0_compat; lra.
  - apply (Rmult_lt_reg_r (1 + P)); [lra |]. field_simplify; lra.
Qed.

(** X23: the expected score is a probability strictly between 0 and 1;
    the expectations of two players against each other add up to 1; and
    a higher own rating never lowers the expectation. *)
Theorem X23_expectedScore_is_a_probability (ratingA ratingB : Z) :
  (0 < Elo.expectedScore ratingA ratingB < 1)%R ∧
  (Elo.expectedScore ratingA ratingB + Elo.expectedScore ratingB ratingA = 1)%R ∧
  (∀ higher, (ratingA ≤ higher)%Z →
             (Elo.expectedScore ratingA ratingB <= Elo.expectedScore higher ratingB)%R).
Proof.
  split; [apply expectedScore_range |]. split.
  - unfold Elo.expectedScore.
    replace ((IZR ratingA - IZR ratingB) / 400)%R
      with (- ((IZR ratingB - IZR ratingA) / 400))%R by lra.
    rewrite Rpower_Ropp.
    pose proof (Rpower_10_pos ((IZR ratingB - IZR ratingA) / 400)) as HP.
    set (P := Rpower 10 ((IZR ratingB - IZR ratingA) / 400)) in *.
    field. split; lra.
  - intros higher Hle. unfold Elo.expectedScore.
    pose proof (Rpower_10_pos ((IZR ratingB - IZR ratingA) / 400)) as HP.
    pose proof (Rpower_10_pos ((IZR ratingB - IZR higher) / 400)) as HQ.
    assert (Hmono : (Rpower 10 ((IZR ratingB - IZR higher) / 400)
                     <= Rpower 10 ((IZR ratingB - IZR ratingA) / 400))%R).
    { apply Rle_Rpower; [lra |]. apply IZR_le in Hle. lra. }
    set (P := Rpower 10 ((IZR ratingB - IZR ratingA) / 400)) in *.
    set (Q := Rpower 10 ((IZR ratingB - IZR higher) / 400)) in *.
    unfold Rdiv. rewrite !Rmult_1_l.
    apply Rinv_le_contravar; lra.
Qed.

Lemma fold_sum_bounds {A} (f : A → R) (lo hi : R) (l : list A) (acc : R) :
  (∀ x, lo <= f x <= hi)%R →
  (acc + lo * INR (length l) <= fold_left (λ a x, a + f x)%R l acc
   <= acc + hi * INR (length l))%R.
Proof.
  intros Hf. revert acc. induction l as [|x l IH]; intros acc.
  - cbn. lra.
  - cbn [fold_left]. specialize (IH (acc + f x)%R). specialize (Hf x).
    rewrite length_cons, S_INR. lra.
Qed.

Lemma expectedAvg_range (rating : Z) (opponents : list Elo.Opponent) :
  opponents ≠ [] → (0 <= Elo.expectedAvg rating opponents <= 1)%R.
Proof.
  intros Hne. unfold Elo.expectedAvg, Elo.expectedSum.
  assert (Hn : (0 < INR (length opponents))%R).
  { apply lt_0_INR. destruct opponents; [done | cbn; lia]. }
  pose proof (fold_sum_bounds (λ o, Elo.expectedScore rating (Elo.o_rating o)) 0 1
                opponents 0) as Hs.
  cbn beta in Hs. destruct Hs as [Hlo Hhi].
  { intros o. pose proof (expectedScore_range rating (Elo.o_rating o)). lra. }
  split.
  - apply Rmult_le_reg_r with (INR (length opponents)); [done |].
    unfold Rdiv. rewrite Rmult_assoc, Rinv_l by lra. lra.
  - apply Rmult_le_reg_r with (INR (length opponents)); [done |].
    unfold Rdiv. rewrite Rmult_assoc, Rinv_l by lra. lra.
Qed.

Lemma actualAvg_range (won : bool) (opponents : list Elo.Opponent) :
  opponents ≠ [] →
  (0 <= Elo.actualAvg won opponents <= 1)%R ∧
  (won = true → Elo.actualAvg won opponents = 1%R) ∧
  (won = false → Forall (λ o, Elo.o_won o = true) opponents →
   Elo.actualAvg won opponents = 0%R).
Proof.
  intros Hne. unfold Elo.actualAvg, Elo.actualSum.
  assert (Hn : (0 < INR (length opponents))%R).
  { apply lt_0_INR. destruct opponents; [done | cbn; lia]. }
  destruct won.
  - pose proof (fold_sum_bounds (λ _ : Elo.Opponent, 1%R) 1 1 opponents 0) as Hs.
    cbn beta in Hs. destruct Hs as [Hlo Hhi]; [intros; lra |].
    assert (E : fold_left (λ (acc : R) (_ : Elo.Opponent), (acc + 1)%R) opponents 0%R
                = INR (length opponents)) by lra.
    rewrite E. unfold Rdiv. rewrite Rinv_r by lra. split; [lra |]. split; [done | done].
  - split; [|split; [done |]].
    + pose proof (fold_sum_bounds (λ o, if Elo.o_won o then 0%R else (/ 2)%R) 0 1
                    opponents 0) as Hs.
      cbn beta in Hs. destruct Hs as [Hlo Hhi].
      { intros o. destruct (Elo.o_won o); lra. }
      split.
      * apply Rmult_le_reg_r with (INR (length opponents)); [done |].
        unfold Rdiv. rewrite Rmult_assoc, Rinv_l by lra. lra.
      * apply Rmult_le_reg_r with (INR (length opponents)); [done |].
        unfold Rdiv. rewrite Rmult_assoc, Rinv_l by lra. lra.
    + intros _ Hall.
      assert (E : ∀ acc, fold_left (λ (acc : R) (o : Elo.Opponent),
                           (acc + (if Elo.o_won o then 0 else / 2))%R) opponents acc = acc).
      { clear Hne Hn. induction Hall as [|o l Ho _ IH]; intros acc; [done |].
        cbn [fold_left]. rewrite Ho, IH. lra. }
      rewrite E. lra.
Qed.

(** X24: a game without rated opponents leaves the rating as it is.
    Otherwise the new rating differs from the old one by at most the K
    factor; a winner never loses rating, and a loser all of whose
    opponents are marked as winners never gains. *)
Theorem X24_calculateNewRating_bounds (currentRating totalGames : Z) (won : bool)
        (opponents : list Elo.Opponent) :
  let K := Elo.getKFactor totalGames in
  let new := Elo.calculateNewRating currentRating totalGames won opponents in
  (opponents = [] → new = currentRating) ∧
  (currentRating - K ≤ new ≤ currentRating + K)%Z ∧
  (won = true → (currentRating ≤ new)%Z) ∧
  (won = false → Forall (λ o, Elo.o_won o = true) opponents → (new ≤ currentRating)%Z).
Proof.
  intros K new. subst new. unfold Elo.calculateNewRating. fold K.
  assert (HK : (0 < K)%Z) by (unfold K, Elo.getKFactor; case_match; lia).
  destruct opponents as [|o os]; cbn [length Nat.eqb].
  { repeat split; try done; lia. }
  set (ops := o :: os).
  assert (Hne : ops ≠ []) by done.
  destruct (actualAvg_range won ops Hne) as (Ha & Hwin & Hlose).
  pose proof (expectedAvg_range currentRating ops Hne) as He.
  set (a := Elo.actualAvg won ops) in *.
  set (x := Elo.expectedAvg currentRating ops) in *.
  assert (HKR : (0 < IZR K)%R) by (by apply IZR_lt).
  assert (Hround : ∀ lo hi : Z,
            (IZR lo <= IZR currentRating + IZR K * (a - x) <= IZR hi)%R →
            (lo ≤ Elo.Math_round (IZR currentRating + IZR K * (a - x)) ≤ hi)%Z).
  { intros lo hi [Hlo Hhi]. unfold Elo.Math_round. split.
    - apply Zfloor_lub. lra.
    - pose proof (Zfloor_bound (IZR currentRating + IZR K * (a - x) + / 2)) as [Hb _].
      apply Z.lt_succ_r. apply lt_IZR. rewrite succ_IZR. lra. }
  split; [done |]. split; [|split].
  - apply Hround. rewrite minus_IZR, plus_IZR. split; nra.
  - intros Hw. rewrite (Hwin Hw) in *.
    apply (Hround currentRating (currentRating + K)%Z). rewrite plus_IZR. split; nra.
  - intros Hw Hall. rewrite (Hlose Hw Hall) in *.
    apply (Hround (currentRating - K)%Z currentRating). rewrite minus_IZR. split; nra.
Qed.

(** X25: the tier is the number of the thresholds 900, 1100, 1300 and
    1500 that the rating has reached, counted from Bronze; so a higher
    rating never gives a lower tier, and the starting rating 1000 is
    Silver. *)
Theorem X25_getTierFromRating_thresholds (rating : Z) :
  tier_level (Elo.getTierFromRating rating)
  = length (filter (λ t, (t ≤ rating)%Z) [900; 1100; 1300; 1500]%Z) ∧
  (∀ higher, (rating ≤ higher)%Z →
             (tier_level (Elo.getTierFromRating rating)
              ≤ tier_level (Elo.getTierFromRating higher))%nat) ∧
  Elo.getTierFromRating 1000 = Elo.Silver.
Proof.
  assert (Hcount : ∀ r, tier_level (Elo.getTierFromRating r)
            = length (filter (λ t, (t ≤ r)%Z) [900; 1100; 1300; 1500]%Z)).
  { intros r. unfold Elo.getTierFromRating.
    rewrite !filter_cons, filter_nil.
    repeat (case_decide; try lia);
      repeat match goal with
        | |- context [(?a <? ?b)%Z] => destruct (Z.ltb_spec a b); try lia
        end; reflexivity. }
  split; [apply Hcount |]. split; [|reflexivity].
  intros higher Hle. unfold Elo.getTierFromRating.
  repeat match goal with
    | |- context [(?a <? ?b)%Z] => destruct (Z.ltb_spec a b); try lia
    end; cbn; lia.
Qed.

(** ** The statistics records (services/redis.js) *)

Lemma load_twice (raw : option Stats.StatsJson) :
  Stats.load (Some (Stats.load raw)) = Stats.load raw.
Proof. by destruct raw. Qed.

(** X26: recording a game and a new rating in one call stores what
    recording the game and then the rating, or the rating and then the
    game, in two calls would store. *)
Theorem X26_updateStatsAndRating_is_both_updates (userId : string) (won : bool)
        (newRating : Z) (st : Stats.Store) :
  Stats.updateStatsAndRating userId won newRating st
  = Stats.updateRating userId newRating (Stats.recordGameResult userId won st) ∧
  Stats.updateStatsAndRating userId won newRating st
  = Stats.recordGameResult userId won (Stats.updateRating userId newRating st).
Proof.
  unfold Stats.updateStatsAndRating, Stats.updateRating, Stats.recordGameResult.
  cbn [Stats.stats Stats.leaderboard]. rewrite !lookup_insert_eq, !insert_insert_eq.
  split; f_equal; f_equal.
  - destruct (Stats.stats st !! userId) as [s|]; [|done].
    unfold Stats.load, Stats.count_game, Stats.set_rating. cbn.
    reflexivity.
  - destruct (Stats.stats st !! userId) as [s|];
      unfold Stats.load, Stats.count_game, Stats.set_rating; cbn.
    + destruct (Stats.peakRating s), (Stats.rating s); cbn; repeat case_match; reflexivity.
    + repeat case_match; reflexivity.
Qed.

(** X27: after [updateStatsAndRating] the user's record has one more
    game, one more win or one more loss and the other count as it was,
    the new rating, and as peak the larger of the old peak and the new
    rating, so the peak never falls and is never below the rating; the
    leaderboard score of the user is the new rating; and the records and
    scores of all other users are as before. *)
Theorem X27_updateStatsAndRating_record (userId : string) (won : bool)
        (newRating : Z) (st : Stats.Store) :
  let old := Stats.load (Stats.stats st !! userId) in
  let st' := Stats.updateStatsAndRating userId won newRating st in
  ∃ new oldPeak,
    Stats.stats st' !! userId = Some new ∧
    Stats.peakRating old = Some oldPeak ∧
    Stats.totalGames new = Some (Stats.or0 (Stats.totalGames old) + 1)%Z ∧
    Stats.wins new
    = (if won then Some (Stats.or0 (Stats.wins old) + 1)%Z else Stats.wins old) ∧
    Stats.losses new
    = (if won then Stats.losses old else Some (Stats.or0 (Stats.losses old) + 1)%Z) ∧
    Stats.rating new = Some newRating ∧
    Stats.peakRating new = Some (Z.max oldPeak newRating) ∧
    Stats.leaderboard st' !! userId = Some newRating ∧
    (∀ other, other ≠ userId →
              Stats.stats st' !! other = Stats.stats st !! other ∧
              Stats.leaderboard st' !! other = Stats.leaderboard st !! other).
Proof.
  cbn zeta. unfold Stats.updateStatsAndRating. cbn [Stats.stats Stats.leaderboard].
  rewrite !lookup_insert_eq.
  assert (Hpeak : ∃ oldPeak,
            Stats.peakRating (Stats.load (Stats.stats st !! userId)) = Some oldPeak).
  { destruct (Stats.stats st !! userId); by eexists. }
  destruct Hpeak as [oldPeak Hpeak].
  eexists _, oldPeak. split; [reflexivity |]. split; [exact Hpeak |].
  unfold Stats.set_rating, Stats.count_game.
  cbn [Stats.totalGames Stats.wins Stats.losses Stats.rating Stats.peakRating].
  rewrite Hpeak. repeat split.
  - destruct (Z.ltb_spec oldPeak newRating); f_equal; lia.
  - by rewrite lookup_insert_ne.
  - by rewrite lookup_insert_ne.
Qed.

(** ** The lobby handlers (join_room, rejoin_room, leave_room) *)

Lemma existsb_userId (uid : string) (ps : list Player) :
  existsb (λ p, String.eqb (userId p) uid) ps = true ↔ uid ∈ map userId ps.
Proof.
  rewrite existsb_exists, list_elem_of_fmap. split.
  - intros (p & Hp & E). apply String.eqb_eq in E. exists p.
    split; [done | by apply list_elem_of_In].
  - intros (p & -> & Hp). exists p. split; [by apply list_elem_of_In | apply String.eqb_refl].
Qed.

Lemma update_first_map {B} (g : Player → B) (pred : Player → bool) (f : Player → Player)
      (ps : list Player) :
  (∀ p, g (f p) = g p) → map g (Lobby.update_first pred f ps) = map g ps.
Proof.
  intros Hg. induction ps as [|p ps IH]; [done |].
  cbn [Lobby.update_first]. destruct (pred p); cbn [map]; [by rewrite Hg | by rewrite IH].
Qed.

(** X28: [join_room] on an existing room admits the user exactly when the
    room is waiting, has a free seat and does not seat that user yet.
    The newcomer then takes the last seat as a connected human player
    bound to this connection, the seats stay free of duplicate users, the
    room stays among the rooms the handlers can produce, and the
    connection is appended to the roster.  A refused request changes
    nothing. *)
Theorem X28_join_room_outcome (shuffle : nat → list string → list string)
        (sock roomId : string) (username : option string) (uid : string)
        (w : Lobby.Shared) (room : Room) :
  Lobby.rooms w !! roomId = Some room →
  let '(a, w') := Lobby.join_room sock roomId username uid w in
  (a = Lobby.AckOk ↔
   gameState room = waiting ∧ (length (players room) < maxPlayers room)%nat ∧
   uid ∉ map userId (players room)) ∧
  (a ≠ Lobby.AckOk → w' = w) ∧
  (a = Lobby.AckOk →
   ∃ p, userId p = uid ∧ sid p = sock ∧ isBot p = false ∧ disconnected p = false ∧
        Lobby.rooms w'
        = <[GameManager.roomId room := set_players (players room ++ [p]) room]>
            (Lobby.rooms w) ∧
        (NoDup (map userId (players room)) →
         NoDup (map userId (players room ++ [p]))) ∧
        (length (players room ++ [p]) ≤ maxPlayers room)%nat ∧
        (reachable shuffle room →
         reachable shuffle (set_players (players room ++ [p]) room)) ∧
        Lobby.rosters w' !! roomId
        = Some (default [] (Lobby.rosters w !! roomId) ++ [sock]) ∧
        Lobby.userIdToSocketId w' !! uid = Some sock).
Proof.
  intros Hroom. unfold Lobby.join_room. rewrite Hroom.
  destruct (GameState_eqb (gameState room) waiting) eqn:Hw; cbn [negb]; tests_to_props.
  2: { split; [split; [done | by intros [? _]] |]. split; done. }
  destruct (Nat.leb_spec (maxPlayers room) (length (players room))) as [Hfull|Hfree].
  { split; [split; [done | intros (_ & ? & _); lia] |]. split; done. }
  destruct (existsb _ (players room)) eqn:Hseat.
  { apply existsb_userId in Hseat.
    split; [split; [done | by intros (_ & _ & ?)] |]. split; done. }
  assert (Hnew : uid ∉ map userId (players room)).
  { intros Hin. apply existsb_userId in Hin. congruence. }
  split; [by split |]. split; [done |]. intros _.
  eexists (Lobby.mk_player sock uid _). cbn [userId sid isBot disconnected Lobby.mk_player].
  do 4 (split; [reflexivity |]).
  cbn [Lobby.rooms Lobby.rosters Lobby.userIdToSocketId].
  split; [by destruct room |]. split; [|split; [|split; [|split]]].
  - intros Hnd. rewrite map_app. cbn [map]. apply NoDup_app. split; [done |].
    split; [|apply NoDup_singleton].
    intros x Hx Hx'. apply list_elem_of_singleton in Hx'. by subst.
  - rewrite length_app. cbn [length]. lia.
  - intros Hreach. by apply reach_join.
  - apply lookup_insert_eq.
  - apply lookup_insert_eq.
Qed.

Lemma update_first_split (pred : Player → bool) (f : Player → Player) (ps : list Player) :
  (List.find pred ps = None ∧ existsb pred ps = false ∧
   Lobby.update_first pred f ps = ps) ∨
  (∃ l1 p l2, ps = l1 ++ p :: l2 ∧ pred p = true ∧ Forall (λ q, pred q = false) l1 ∧
              List.find pred ps = Some p ∧ existsb pred ps = true ∧
              Lobby.update_first pred f ps = l1 ++ f p :: l2).
Proof.
  induction ps as [|q ps IH]; [by left |].
  cbn [List.find existsb Lobby.update_first]. destruct (pred q) eqn:Hq.
  - right. exists [], q, ps. by repeat split.
  - destruct IH as [(Hf & He & Hu)|(l1 & p & l2 & -> & Hp & Hl1 & Hf & He & Hu)].
    + left. by rewrite Hf, He, Hu.
    + right. exists (q :: l1), p, l2. rewrite Hf, He, Hu. repeat split; try done.
      by constructor.
Qed.

Lemma index_of_Some (x : string) (l : list string) (i : nat) :
  Lobby.index_of x l = Some i → l !! i = Some x.
Proof.
  revert i. induction l as [|y l IH]; intros i; cbn [Lobby.index_of]; [done |].
  destruct (String.eqb_spec y x) as [->|_].
  - by intros [= <-].
  - destruct (Lobby.index_of x l) as [j|]; [|done]. cbn. intros [= <-]. by apply IH.
Qed.

Lemma index_of_None (x : string) (l : list string) :
  Lobby.index_of x l = None → x ∉ l.
Proof.
  induction l as [|y l IH]; cbn [Lobby.index_of]; [intros _; apply not_elem_of_nil |].
  destruct (String.eqb_spec y x) as [->|Hne]; [done |].
  destruct (Lobby.index_of x l); [done |]. intros _.
  apply not_elem_of_cons. split; [done | by apply IH].
Qed.

(** X29: [rejoin_room] on an existing room succeeds exactly for a user
    who has a seat, whatever the phase of the game.  The first seat of
    that user is bound to the new connection and marked connected; every
    other seat, the user ids, names and bot flags, the hands and the turn
    are as before, so the room stays among the rooms the handlers can
    produce; the new connection is in the roster afterwards, in the place
    of the old one if that was listed.  A refused request changes
    nothing. *)
Theorem X29_rejoin_room_rebinds (shuffle : nat → list string → list string)
        (sock roomId uid : string) (w : Lobby.Shared) (room : Room) :
  Lobby.rooms w !! roomId = Some room →
  let '(a, w') := Lobby.rejoin_room sock roomId uid w in
  (a = Lobby.AckOk ↔ uid ∈ map userId (players room)) ∧
  (a ≠ Lobby.AckOk → w' = w) ∧
  (a = Lobby.AckOk →
   ∃ l1 p l2 roster',
     players room = l1 ++ p :: l2 ∧ userId p = uid ∧ (uid ∉ map userId l1) ∧
     (let p' := {| sid := sock; userId := uid; name := name p; isBot := isBot p;
                   disconnected := false |} in
     Lobby.rooms w'
     = <[GameManager.roomId room := set_players (l1 ++ p' :: l2) room]> (Lobby.rooms w) ∧
     (reachable shuffle room → reachable shuffle (set_players (l1 ++ p' :: l2) room)) ∧
     Lobby.rosters w' = <[roomId := roster']> (Lobby.rosters w) ∧
     sock ∈ roster' ∧
     (sid p ∈ default [] (Lobby.rosters w !! roomId) →
      length roster' = length (default [] (Lobby.rosters w !! roomId))) ∧
     Lobby.userIdToSocketId w' = <[uid := sock]> (Lobby.userIdToSocketId w) ∧
     Lobby.playerRecords w' = Lobby.playerRecords w)).
Proof.
  intros Hroom. unfold Lobby.rejoin_room. rewrite Hroom.
  set (pred := λ p : Player, String.eqb (userId p) uid).
  set (f := λ p : Player, {| sid := sock; userId := userId p; name := name p;
                             isBot := isBot p; disconnected := false |}).
  destruct (update_first_split pred f (players room))
    as [(Hf & He & Hu)|(l1 & p & l2 & Hps & Hp & Hl1 & Hf & He & Hu)]; rewrite Hf.
  - assert (Hout : uid ∉ map userId (players room)).
    { intros Hin. apply existsb_userId in Hin. unfold pred in He. congruence. }
    split; [by split |]. split; done.
  - unfold pred in Hp. apply String.eqb_eq in Hp.
    assert (Hin : uid ∈ map userId (players room)).
    { apply existsb_userId. exact He. }
    split; [by split |]. split; [done |]. intros _.
    rewrite Hu.
    eexists l1, p, l2, _. split; [exact Hps |]. split; [exact Hp |].
    split.
    { intros Hin1. apply list_elem_of_fmap in Hin1 as (q & Hq & Hq1).
      rewrite Forall_forall in Hl1. specialize (Hl1 q Hq1). unfold pred in Hl1.
      apply String.eqb_neq in Hl1. congruence. }
    cbn zeta. cbn [Lobby.rooms Lobby.rosters Lobby.userIdToSocketId Lobby.playerRecords].
    unfold f. rewrite Hp.
    split; [by destruct room |].
    split.
    { intros Hreach. apply reach_rebind; [done | |]; cbn [players set_players];
        rewrite Hps, !map_app; cbn [map userId isBot]; by rewrite ?Hp. }
    split; [reflexivity |].
    destruct (Lobby.index_of (sid p) (default [] (Lobby.rosters w !! roomId)))
      as [i|] eqn:Hi.
    + apply index_of_Some in Hi. split; [|split; [|done]].
      * apply list_elem_of_lookup. exists i. apply list_lookup_insert_eq.
        by apply lookup_lt_Some in Hi.
      * intros _. apply length_insert.
    + split; [apply elem_of_app; right; left |]. split; [|done].
      intros Hold. by apply index_of_None in Hi.
Qed.

(** X30: [leave_room] on an existing room marks the first seat bound to
    the leaving connection as disconnected and stores the room; the seat
    is not given up: seats, user ids, connection ids, hands and turn are
    as before, the room stays among the rooms the handlers can produce,
    and roster and user records are not touched.  A connection that holds
    no seat changes nothing. *)
Theorem X30_leave_room_keeps_the_seat (shuffle : nat → list string → list string)
        (sock roomId : string) (w : Lobby.Shared) (room : Room) :
  Lobby.rooms w !! roomId = Some room →
  let w' := Lobby.leave_room sock roomId w in
  (sock ∉ map sid (players room) → w' = w) ∧
  (sock ∈ map sid (players room) →
   ∃ l1 p l2,
     players room = l1 ++ p :: l2 ∧ sid p = sock ∧ (sock ∉ map sid l1) ∧
     (let p' := {| sid := sid p; userId := userId p; name := name p; isBot := isBot p;
                   disconnected := true |} in
     w' = {| Lobby.rooms :=
               <[GameManager.roomId room := set_players (l1 ++ p' :: l2) room]>
                 (Lobby.rooms w);
             Lobby.rosters := Lobby.rosters w;
             Lobby.userIdToSocketId := Lobby.userIdToSocketId w;
             Lobby.playerRecords := Lobby.playerRecords w |} ∧
     (reachable shuffle room → reachable shuffle (set_players (l1 ++ p' :: l2) room)))).
Proof.
  intros Hroom. cbn zeta. unfold Lobby.leave_room. rewrite Hroom.
  set (pred := λ p : Player, String.eqb (sid p) sock).
  set (f := λ p : Player, {| sid := sid p; userId := userId p; name := name p;
                             isBot := isBot p; disconnected := true |}).
  assert (Hex : existsb pred (players room) = true ↔ sock ∈ map sid (players room)).
  { rewrite existsb_exists, list_elem_of_fmap. unfold pred. split.
    - intros (p & Hp & E). apply String.eqb_eq in E. exists p.
      split; [done | by apply list_elem_of_In].
    - intros (p & -> & Hp). exists p.
      split; [by apply list_elem_of_In | apply String.eqb_refl]. }
  destruct (update_first_split pred f (players room))
    as [(Hf & He & Hu)|(l1 & p & l2 & Hps & Hp & Hl1 & Hf & He & Hu)]; rewrite He.
  - split; [done |]. intros Hin. apply Hex in Hin. congruence.
  - split; [intros Hout; exfalso; by apply Hout, Hex |]. intros _.
    unfold pred in Hp. apply String.eqb_eq in Hp. rewrite Hu.
    exists l1, p, l2. split; [exact Hps |]. split; [exact Hp |]. split.
    { intros Hin1. apply list_elem_of_fmap in Hin1 as (q & Hq & Hq1).
      rewrite Forall_forall in Hl1. specialize (Hl1 q Hq1). unfold pred in Hl1.
      apply String.eqb_neq in Hl1. congruence. }
    cbn zeta. split; [by destruct room |].
    intros Hreach. apply reach_rebind; [done | |]; cbn [players set_players];
      rewrite Hps, !map_app; cbn [map userId isBot]; done.
Qed.

Lemma X28_join_room_outcome_witness :
  let w := Samples.shared_of Samples.lobby in
  let room := Samples.lobby in
  let '(a, w') := Lobby.join_room "s-bob" "ROOM02" (Some "Bob") "bob" w in
  (a = Lobby.AckOk ↔
   gameState room = waiting ∧ (length (players room) < maxPlayers room)%nat ∧
   "bob" ∉ map userId (players room)) ∧
  (a ≠ Lobby.AckOk → w' = w) ∧
  (a = Lobby.AckOk →
   ∃ p, userId p = "bob" ∧ sid p = "s-bob" ∧ isBot p = false ∧ disconnected p = false ∧
        Lobby.rooms w'
        = <[GameManager.roomId room := set_players (players room ++ [p]) room]>
            (Lobby.rooms w) ∧
        (NoDup (map userId (players room)) →
         NoDup (map userId (players room ++ [p]))) ∧
        (length (players room ++ [p]) ≤ maxPlayers room)%nat ∧
        (reachable Samples.keep_order room →
         reachable Samples.keep_order (set_players (players room ++ [p]) room)) ∧
        Lobby.rosters w' !! "ROOM02"
        = Some (default [] (Lobby.rosters w !! "ROOM02") ++ ["s-bob"]) ∧
        Lobby.userIdToSocketId w' !! "bob" = Some "s-bob").
Proof.
  apply (X28_join_room_outcome Samples.keep_order "s-bob" "ROOM02" (Some "Bob") "bob"
           (Samples.shared_of Samples.lobby) Samples.lobby).
  vm_compute. reflexivity.
Defined.

Lemma X29_rejoin_room_rebinds_witness :
  let w := Samples.shared_of Samples.late_humans in
  let room := Samples.late_humans in
  let '(a, w') := Lobby.rejoin_room "s-new" "ROOM01" "bob" w in
  (a = Lobby.AckOk ↔ "bob" ∈ map userId (players room)) ∧
  (a ≠ Lobby.AckOk → w' = w) ∧
  (a = Lobby.AckOk →
   ∃ l1 p l2 roster',
     players room = l1 ++ p :: l2 ∧ userId p = "bob" ∧ ("bob" ∉ map userId l1) ∧
     (let p' := {| sid := "s-new"; userId := "bob"; name := name p; isBot := isBot p;
                   disconnected := false |} in
     Lobby.rooms w'
     = <[GameManager.roomId room := set_players (l1 ++ p' :: l2) room]> (Lobby.rooms w) ∧
     (reachable Samples.keep_order room →
      reachable Samples.keep_order (set_players (l1 ++ p' :: l2) room)) ∧
     Lobby.rosters w' = <["ROOM01" := roster']> (Lobby.rosters w) ∧
     "s-new" ∈ roster' ∧
     (sid p ∈ default [] (Lobby.rosters w !! "ROOM01") →
      length roster' = length (default [] (Lobby.rosters w !! "ROOM01"))) ∧
     Lobby.userIdToSocketId w' = <["bob" := "s-new"]> (Lobby.userIdToSocketId w) ∧
     Lobby.playerRecords w' = Lobby.playerRecords w)).
Proof.
  apply (X29_rejoin_room_rebinds Samples.keep_order "s-new" "ROOM01" "bob"
           (Samples.shared_of Samples.late_humans) Samples.late_humans).
  vm_compute. reflexivity.
Defined.

Lemma X30_leave_room_keeps_the_seat_witness :
  let w := Samples.shared_of Samples.late_humans in
  let room := Samples.late_humans in
  let w' := Lobby.leave_room "s-bob" "ROOM01" w in
  ("s-bob" ∉ map sid (players room) → w' = w) ∧
  ("s-bob" ∈ map sid (players room) →
   ∃ l1 p l2,
     players room = l1 ++ p :: l2 ∧ sid p = "s-bob" ∧ ("s-bob" ∉ map sid l1) ∧
     (let p' := {| sid := sid p; userId := userId p; name := name p; isBot := isBot p;
                   disconnected := true |} in
     w' = {| Lobby.rooms :=
               <[GameManager.roomId room := set_players (l1 ++ p' :: l2) room]>
                 (Lobby.rooms w);
             Lobby.rosters := Lobby.rosters w;
             Lobby.userIdToSocketId := Lobby.userIdToSocketId w;
             Lobby.playerRecords := Lobby.playerRecords w |} ∧
     (reachable Samples.keep_order room →
      reachable Samples.keep_order (set_players (l1 ++ p' :: l2) room)))).
Proof.
  apply (X30_leave_room_keeps_the_seat Samples.keep_order "s-bob" "ROOM01"
           (Samples.shared_of Samples.late_humans) Samples.late_humans).
  vm_compute. reflexivity.
Defined.
